(** * GoogleFileManagerService: the document cache and its synchronisation

    A shallow embedding of [GoogleFileManagerService]
    (src/app/service/google-file-manager.service.ts): the event subject
    [_fileEvent$], the snapshot [_cachedFiles$] folded from it by
    [accumulator], the subscription layer and the operations that talk to
    the drive and publish life-cycle events.

    Conventions of the embedding:
    - a JavaScript [Map] is an insertion-ordered association list with
      unique keys ([Map.forEach] and [Map.values] are observable in
      [clearAllDocuments] and [listenDocuments]);
    - [Subject.next] is synchronous: publishing an event appends it to the
      log of the subject, folds it into the snapshot held by [scan] and
      hands the snapshot to the subscribers of [_cachedFiles$]; a subscriber
      that publishes from within a delivery is served first, to the end;
    - an [Observable] returned by an operation is described by what a
      subscriber receives: one value, or an error notification; the stream
      of [unloadById], which stays on [_cachedFiles$], is described by the
      subscription it leaves open and by every value delivered to it;
    - the drive client is an external collaborator: a record of functions
      over an abstract state, and every call is written to a log;
      [oauthService.getClient()] delivers the client at once, and
      [zone.ngZoneEnter()] is the identity on what a stream delivers;
    - an operation runs from its call to its last answer without another
      one in between, except [loadAllAccessibleFiles], whose inner loads
      are interleaved by the order in which their answers arrive. *)

From Stdlib Require Import List String Ascii Bool Arith Lia.
Import ListNotations.
Local Open Scope string_scope.
Set Warnings "-register-all".

(** ** JavaScript values *)

(** A value used as a document id: [undefined], [null] or a string. *)
Inductive JsId : Type :=
| IdUndefined
| IdNull
| IdStr (s : string).

(** [x != null] *)
Definition notNullish (x : JsId) : bool :=
  match x with IdStr _ => true | _ => false end.

(** SameValueZero on ids, the key comparison of [Map]; it agrees with [===]. *)
Definition JsId_eqb (x y : JsId) : bool :=
  match x, y with
  | IdUndefined, IdUndefined => true
  | IdNull, IdNull => true
  | IdStr s, IdStr t => String.eqb s t
  | _, _ => false
  end.

(** Document content: a JavaScript value as [JSON.parse] produces them,
    plus [undefined]. *)
Inductive JsValue : Type :=
| JUndefined
| JNull
| JBool (b : bool)
| JNum (n : nat)
| JString (s : string)
| JArray (items : list JsValue)
| JObject (fields : list (string * JsValue)).

(** What a [try]/[throw] yields. *)
Inductive Result (A : Type) : Type :=
| Ok (a : A)
| Throw (msg : string).
Arguments Ok {A} a.
Arguments Throw {A} msg.

(** ** Document *)

(** Modelled from the spec: the class [JsonFile] (src/app/model_data/json-file.ts
    is not part of the sources at hand).  The fields are the ones the spec's
    Document lists and the service reads and writes; [id] is absent until the
    document exists remotely. *)
Record JsonFile : Type := mkJsonFile {
  id : JsId;
  name : string;
  editable : bool;
  modifiedTime : string;
  content : JsValue
}.

Definition set_id (i : JsId) (f : JsonFile) : JsonFile :=
  mkJsonFile i (name f) (editable f) (modifiedTime f) (content f).
Definition set_name (n : string) (f : JsonFile) : JsonFile :=
  mkJsonFile (id f) n (editable f) (modifiedTime f) (content f).
Definition set_modifiedTime (t : string) (f : JsonFile) : JsonFile :=
  mkJsonFile (id f) (name f) (editable f) t (content f).
Definition set_content (c : JsValue) (f : JsonFile) : JsonFile :=
  mkJsonFile (id f) (name f) (editable f) (modifiedTime f) c.

(** [{ error: { type, message } }] *)
Definition errorContent (type message : string) : JsValue :=
  JObject [("error", JObject [("type", JString type); ("message", JString message)])].

(** ** Life-cycle events *)

(** [FileAlertAction] is a union of string literals: at run time a string. *)
Definition FileAlertAction : Type := string.

Record FileAlertEvent : Type := mkEvent {
  action : FileAlertAction;
  file : option JsonFile          (* [None] is [null] *)
}.

(** ** Map<string, JsonFile> *)

Module JsMap.

Definition t : Type := list (JsId * JsonFile).

Definition empty : t := [].

Fixpoint get (k : JsId) (m : t) : option JsonFile :=
  match m with
  | [] => None
  | (k', v) :: m' => if JsId_eqb k k' then Some v else get k m'
  end.

(** [set] overwrites in place when the key exists and appends otherwise. *)
Fixpoint set (k : JsId) (v : JsonFile) (m : t) : t :=
  match m with
  | [] => [(k, v)]
  | (k', v') :: m' =>
      if JsId_eqb k k' then (k, v) :: m' else (k', v') :: set k v m'
  end.

Definition delete (k : JsId) (m : t) : t :=
  filter (fun kv => negb (JsId_eqb k (fst kv))) m.

Definition keys (m : t) : list JsId := map fst m.
Definition values (m : t) : list JsonFile := map snd m.

End JsMap.

(** ** The reducer of the cache projector *)

Definition isOneOf (a : FileAlertAction) (l : list string) : bool :=
  existsb (String.eqb a) l.

(** [accumulator] of [initializeFileCashe]. *)
Definition accumulator (accMap : JsMap.t) (event : FileAlertEvent) : Result JsMap.t :=
  match file event with
  | None => Ok accMap
  | Some f =>
      if (action event =? "error") || (action event =? "unload") then
        Ok (JsMap.delete (id f) accMap)
      else if (action event =? "load") || (action event =? "save")
              || (action event =? "update") then
        Ok (JsMap.set (id f) f accMap)
      else
        Throw ("Unrecognised FileAlertEvent: " ++ action event)
  end.

(** [scan(accumulator, seed)] over a finite run of events; a throw ends it. *)
Fixpoint scan (acc : JsMap.t) (events : list FileAlertEvent) : Result JsMap.t :=
  match events with
  | [] => Ok acc
  | e :: rest =>
      match accumulator acc e with
      | Ok acc' => scan acc' rest
      | Throw msg => Throw msg
      end
  end.

(** [startWith({ action: 'error', file: null })] *)
Definition sentinel : FileAlertEvent := mkEvent "error" None.

(** [_cachedFiles$] after the events [published] went through [_fileEvent$]. *)
Definition cachedFilesAfter (published : list FileAlertEvent) : Result JsMap.t :=
  scan JsMap.empty (sentinel :: published).

Definition andThen {A B} (r : Result A) (k : A -> Result B) : Result B :=
  match r with
  | Ok a => k a
  | Throw msg => Throw msg
  end.

(** ** The drive client (external collaborator) *)

Definition CR : string := String (ascii_of_nat 13) EmptyString.
Definition LF : string := String (ascii_of_nat 10) EmptyString.
Definition CRLF : string := CR ++ LF.
Definition DQUOTE : string := String (ascii_of_nat 34) EmptyString.

(** [res.result] of [files.get] with [fields: '*']. *)
Record FileMeta : Type := mkMeta {
  meta_id : string;
  meta_name : string;
  meta_modifiedTime : string;
  canDownload : bool;
  canRename : bool;
  canModifyContent : bool
}.

(** An entry of [response.result.files]. *)
Record FileRef : Type := mkRef {
  ref_id : string;
  ref_name : string
}.

Record ListQuery : Type := mkQuery {
  spaces : option string;
  q : string;
  fields : string
}.

(** The body of a request: a text, or an object the client serialises. *)
Inductive RequestBody : Type :=
| TextBody (text : string)
| ObjectBody (value : JsValue).

Record Request : Type := mkRequest {
  path : string;
  method : string;
  params : list (string * string);
  headers : list (string * string);
  body : RequestBody
}.

(** [response.result] of an upload. *)
Record RequestResult : Type := mkResult {
  result_id : string;
  result_modifiedTime : string
}.

Inductive RemoteCall : Type :=
| CallFilesGet (fileId : string) (fieldsArg : string)
| CallFilesGetMedia (fileId : string)
| CallFilesList (query : ListQuery)
| CallFilesCreate (resource : JsValue)
| CallRequest (req : Request).

(** The client over a store of type [R]; [Throw] is a rejected promise. *)
Record Drive (R : Type) : Type := mkDrive {
  files_get : string -> R -> Result FileMeta * R;
  files_get_media : string -> R -> Result string * R;
  files_list : ListQuery -> R -> Result (option (list FileRef)) * R;
  files_create : JsValue -> R -> Result string * R;
  request : Request -> R -> Result RequestResult * R
}.
Arguments files_get {R} _ _ _.
Arguments files_get_media {R} _ _ _.
Arguments files_list {R} _ _ _.
Arguments files_create {R} _ _ _.
Arguments request {R} _ _ _.

(** How an observable ends other than by a value. *)
Inductive Failure : Type :=
| Rejected (reason : string)     (* the drive rejected a call *)
| Raised (msg : string).         (* an [Error] thrown by the service or the runtime *)

(** What the subscriber of a one-shot observable receives. *)
Inductive Outcome (A : Type) : Type :=
| Next (a : A)
| Failed (e : Failure).
Arguments Next {A} a.
Arguments Failed {A} e.

(** [!!v] *)
Definition truthy (v : JsValue) : bool :=
  match v with
  | JUndefined | JNull => false
  | JBool b => b
  | JNum n => negb (n =? 0)%nat
  | JString s => negb (String.length s =? 0)%nat
  | JArray _ | JObject _ => true
  end.

(** ['' + id] *)
Definition idToString (i : JsId) : string :=
  match i with
  | IdUndefined => "undefined"
  | IdNull => "null"
  | IdStr s => s
  end.

(** Modelled from the spec: the members of [JsonFile] the service calls
    (src/app/model_data/json-file.ts is not part of the sources at hand) are
    taken as they come: the constant [MIME_TYPE], the diff between baseline
    and current content, the content as text, the clone whose baseline is the
    saved content, and the document [new JsonFile()] builds. *)
Record JsonFileClass : Type := mkClass {
  MIME_TYPE : string;
  getDiffData : JsonFile -> JsValue;
  contentAsString : JsonFile -> string;
  updateClone : JsonFile -> JsonFile;
  newJsonFile : JsonFile
}.

(** [JSON.parse] and [JSON.stringify]; a [Throw] of [parse] carries [err.message]. *)
Record JSONApi : Type := mkJSON {
  JSON_parse : string -> Result JsValue;
  JSON_stringify : JsValue -> string
}.

(** ** A small store, for examples *)

Module Demo.

Record Doc : Type := mkDoc {
  doc_meta : FileMeta;
  doc_mimeType : string;
  doc_appData : bool;
  doc_body : string
}.

Definition Store : Type := list Doc.

Definition lookup (fileId : string) (store : Store) : option Doc :=
  find (fun d => meta_id (doc_meta d) =? fileId) store.

(** The three shapes of query the service sends. *)
Definition matches (query : ListQuery) (d : Doc) : bool :=
  let byName := "name='" ++ meta_name (doc_meta d) ++ "'" in
  let byType := "mimeType='" ++ doc_mimeType d ++ "'" in
  match spaces query with
  | Some _ => doc_appData d && (q query =? byName)
  | None =>
      negb (doc_appData d)
      && ((q query =? byType ++ " and trashed = false")
          || (q query =? byType ++ " and " ++ byName ++ " and trashed = false"))
  end.

Definition hasField (key : string) (v : JsValue) : bool :=
  match v with
  | JObject members => existsb (fun kv => fst kv =? key) members
  | _ => false
  end.

Definition createdAppFile : Doc :=
  mkDoc (mkMeta "created-1" "file-manager-data.json" "2020-05-01" true true true)
        "application/json" true "{}".

Definition createdFolder : Doc :=
  mkDoc (mkMeta "folder-1" "GloomhavenToolsDocs" "2020-05-02" true true true)
        "application/vnd.google-apps.folder" false EmptyString.

Definition drive : Drive Store :=
  mkDrive Store
    (fun fileId st =>
       (match lookup fileId st with
        | Some d => Ok (doc_meta d)
        | None => Throw "File not found"
        end, st))
    (fun fileId st =>
       (match lookup fileId st with
        | Some d => Ok (doc_body d)
        | None => Throw "File not found"
        end, st))
    (fun query st =>
       (Ok (Some (map (fun d => mkRef (meta_id (doc_meta d)) (meta_name (doc_meta d)))
                      (filter (matches query) st))), st))
    (fun resource st =>
       if hasField "parents" resource
       then (Ok "created-1", (st ++ [createdAppFile])%list)
       else (Ok "folder-1", (st ++ [createdFolder])%list))
    (fun req st => (Ok (mkResult "uploaded-1" "2020-06-01"), st)).

(** A document class whose diff is the content itself, absent for [null]. *)
Definition cls : JsonFileClass :=
  mkClass "application/json"
    (fun f => content f)
    (fun f => match content f with JString s => s | _ => "{}" end)
    (fun f => f)
    (mkJsonFile IdUndefined EmptyString false EmptyString (JObject [])).

(** A parser that knows the empty object only. *)
Definition JSON : JSONApi :=
  mkJSON
    (fun text => if text =? "{}" then Ok (JObject []) else Throw "Unexpected token")
    (fun v => "{}").

Definition jsonDoc (fileId name : string) (downloadable : bool) (text : string) : Doc :=
  mkDoc (mkMeta fileId name "2020-01-01" downloadable true true)
        "application/json" false text.

Definition docA : Doc := jsonDoc "a" "A.json" false "{}".
Definition docB : Doc := jsonDoc "b" "B.json" true "{}".
Definition docC : Doc := jsonDoc "c" "C.json" true "not json".

Definition store : Store := [docA; docB; docC].

Definition fileB : JsonFile :=
  mkJsonFile (IdStr "b") "B.json" true "2020-01-01" (JObject []).

(** [fileB] with nothing to save. *)
Definition fileB_clean : JsonFile := set_content JNull fileB.

Definition appFile : JsonFile :=
  mkJsonFile (IdStr "created-1") "file-manager-data.json" true "2020-05-01"
             (JObject []).

Definition loadB : FileAlertEvent := mkEvent "load" (Some fileB).
Definition unloadB : FileAlertEvent := mkEvent "unload" (Some fileB).

End Demo.

(** ** The service *)

Section Service.

Context {R : Type}.
Variable drive : Drive R.
Variable cls : JsonFileClass.
Variable JSON : JSONApi.

Fixpoint replaceNth {A} (i : nat) (x : A) (l : list A) : list A :=
  match l, i with
  | [], _ => []
  | _ :: rest, O => x :: rest
  | y :: rest, S j => y :: replaceNth j x rest
  end.

Definition isSome {A} (o : option A) : bool :=
  match o with Some _ => true | None => false end.

(** A subscription of [unloadById] that is still open.  [unloadById] has no
    [take(1)]: its subscriber stays on [_cachedFiles$] and looks its id up in
    every snapshot that follows.  The number is the ticket that names the
    subscription, the id is the [docID] it was made with. *)
Definition Unloader : Type := (nat * JsId)%type.

(** A [_cachedFiles$]: the [Map] that its [scan] holds and mutates, the error
    that ended the fold if [accumulator] threw, and the subscriptions of
    [unloadById] that are open on it, oldest first. *)
Record Pipeline : Type := mkPipeline {
  p_cachedFiles : JsMap.t;
  p_scanError : option string;
  p_unloading : list Unloader
}.

(** The fields of the service, the store behind the client and the log of
    the calls made to it.  [fileEvents] is what went through [_fileEvent$],
    in the order of the calls of [next];
    [cachedFiles], [scanError] and [unloading] are the [_cachedFiles$] of the
    service; [retired] holds the ones that [initializeFileCashe] replaced,
    oldest first: [shareReplay] leaves them subscribed to the subject.
    [deliveries] is what the subscribers of [unloadById] have received, each
    value with the ticket of its subscription; [tickets] is the next ticket. *)
Record World : Type := mkWorld {
  fileEvents : list FileAlertEvent;
  cachedFiles : JsMap.t;
  scanError : option string;
  folderId : JsId;
  fileManagerAppFile : option JsonFile;
  remote : R;
  calls : list RemoteCall;
  unloading : list Unloader;
  retired : list Pipeline;
  deliveries : list (nat * bool);
  tickets : nat
}.

(** The service after its constructor ran: the sentinel is folded (a no-op),
    nothing is published, nothing is cached, nobody is subscribed. *)
Definition init (store : R) : World :=
  mkWorld [] JsMap.empty None IdUndefined None store [] [] [] [] 0.

Definition M (A : Type) : Type := World -> Outcome A * World.

Definition ret {A} (a : A) : M A := fun w => (Next a, w).

Definition bind {A B} (m : M A) (k : A -> M B) : M B :=
  fun w =>
    match m w with
    | (Next a, w') => k a w'
    | (Failed e, w') => (Failed e, w')
    end.

Definition fail {A} (e : Failure) : M A := fun w => (Failed e, w).

Local Notation "x <- m ;; k" := (bind m (fun x => k))
  (at level 61, m at next level, right associativity).
Local Notation "m ;;; k" := (bind m (fun _ => k))
  (at level 61, right associativity).

(** *** The subject and its subscribers *)

Definition logEvent (event : FileAlertEvent) (w : World) : World :=
  mkWorld (fileEvents w ++ [event]) (cachedFiles w) (scanError w) (folderId w)
          (fileManagerAppFile w) (remote w) (calls w)
          (unloading w) (retired w) (deliveries w) (tickets w).

Definition logDelivery (t : nat) (b : bool) (w : World) : World :=
  mkWorld (fileEvents w) (cachedFiles w) (scanError w) (folderId w)
          (fileManagerAppFile w) (remote w) (calls w)
          (unloading w) (retired w) (deliveries w ++ [(t, b)]) (tickets w).

(** The pipelines are named in the order in which they subscribed to the
    subject: [Some n] is the n-th retired one, [None] the one of the service. *)
Definition pipelineAt (i : option nat) (w : World) : option Pipeline :=
  match i with
  | None => Some (mkPipeline (cachedFiles w) (scanError w) (unloading w))
  | Some n => nth_error (retired w) n
  end.

Definition setPipelineAt (i : option nat) (p : Pipeline) (w : World) : World :=
  match i with
  | None =>
      mkWorld (fileEvents w) (p_cachedFiles p) (p_scanError p) (folderId w)
              (fileManagerAppFile w) (remote w) (calls w)
              (p_unloading p) (retired w) (deliveries w) (tickets w)
  | Some n =>
      mkWorld (fileEvents w) (cachedFiles w) (scanError w) (folderId w)
              (fileManagerAppFile w) (remote w) (calls w)
              (unloading w) (replaceNth n p (retired w)) (deliveries w) (tickets w)
  end.

(** The pipeline of [unloadById] on one snapshot, for the subscriber [u] of
    the pipeline [i]: [map(mapO => mapO.get(docID))] reads the [Map] as it is
    now, [tap(file => this.unloadFile(file))] publishes through [pub] before
    anything is delivered, [map(file => file != null)] delivers. *)
Definition notifyUnloader (pub : FileAlertEvent -> World -> World)
  (i : option nat) (u : Unloader) (w : World) : World :=
  match pipelineAt i w with
  | None => w
  | Some p =>
      let found := JsMap.get (snd u) (p_cachedFiles p) in
      let w' :=
        match found with
        | Some f =>
            if notNullish (id f) then pub (mkEvent "unload" (Some f)) w else w
        | None => w
        end in
      logDelivery (fst u) (isSome found) w'
  end.

(** One event at the [scan] of the pipeline [i].  A fold that threw takes no
    more events.  A throw of [accumulator] ends the fold and, as an error,
    every subscription on the pipeline.  Otherwise the [Map] is updated and
    handed to the subscribers that are there at that moment, in the order in
    which they subscribed. *)
Definition deliverTo (pub : FileAlertEvent -> World -> World)
  (i : option nat) (event : FileAlertEvent) (w : World) : World :=
  match pipelineAt i w with
  | None => w
  | Some p =>
      match p_scanError p with
      | Some _ => w
      | None =>
          match accumulator (p_cachedFiles p) event with
          | Throw msg => setPipelineAt i (mkPipeline (p_cachedFiles p) (Some msg) []) w
          | Ok m =>
              fold_left (fun w' u => notifyUnloader pub i u w') (p_unloading p)
                        (setPipelineAt i (mkPipeline m None (p_unloading p)) w)
          end
      end
  end.

(** [this._fileEvent$.next(event)]: the subject hands the event to its
    subscribers in the order in which they subscribed.  A subscriber of
    [unloadById] that finds its document publishes from within the delivery:
    that publication runs to its end, through every pipeline, before the
    delivery goes on.  [fuel] bounds the depth of such publications: a
    publication that would go deeper is dropped. *)
Fixpoint publishWith (fuel : nat) (event : FileAlertEvent) (w : World) : World :=
  match fuel with
  | O => w
  | S fuel' =>
      fold_left (fun w' i => deliverTo (publishWith fuel') i event w')
                (map Some (seq 0 (List.length (retired w))) ++ [None])%list
                (logEvent event w)
  end.

(** The depth allowed to a publication: one level for each cached document
    and each pipeline, and two more.  In the worlds that the service reaches
    the second level is the last one ([publish_depth]). *)
Definition depth (w : World) : nat :=
  S (S (List.length (cachedFiles w) + List.length (retired w)
        + list_sum (map (fun p => List.length (p_cachedFiles p)) (retired w)))%nat).

Definition publish (event : FileAlertEvent) (w : World) : World :=
  publishWith (depth w) event w.

Definition next (event : FileAlertEvent) : M unit :=
  fun w => (Next tt, publish event w).

(** Subscribing to [_cachedFiles$] after the fold threw: [shareReplay]
    subscribes its source again, and [scan] starts over on the [Map] it was
    given, as the throw left it; what was published in between is lost. *)
Definition revive (w : World) : World :=
  match scanError w with
  | None => w
  | Some _ =>
      mkWorld (fileEvents w) (cachedFiles w) None (folderId w)
              (fileManagerAppFile w) (remote w) (calls w)
              (unloading w) (retired w) (deliveries w) (tickets w)
  end.

(** [this._cachedFiles$.pipe(take(1))]: the replayed snapshot. *)
Definition cachedFiles_now : M JsMap.t :=
  fun w => (Next (cachedFiles w), revive w).

Definition logCall (c : RemoteCall) (w : World) : World :=
  mkWorld (fileEvents w) (cachedFiles w) (scanError w) (folderId w)
          (fileManagerAppFile w) (remote w) (calls w ++ [c])
          (unloading w) (retired w) (deliveries w) (tickets w).

Definition setRemote (r : R) (w : World) : World :=
  mkWorld (fileEvents w) (cachedFiles w) (scanError w) (folderId w)
          (fileManagerAppFile w) r (calls w)
          (unloading w) (retired w) (deliveries w) (tickets w).

Definition setFileManagerAppFile (f : JsonFile) (w : World) : World :=
  mkWorld (fileEvents w) (cachedFiles w) (scanError w) (folderId w)
          (Some f) (remote w) (calls w)
          (unloading w) (retired w) (deliveries w) (tickets w).

(** The answer of the store to a call that was issued. *)
Definition answer {A} (op : R -> Result A * R) : M A :=
  fun w =>
    match op (remote w) with
    | (Ok a, r) => (Next a, setRemote r w)
    | (Throw reason, r) => (Failed (Rejected reason), setRemote r w)
    end.

(** A call and its answer, with nothing in between. *)
Definition call {A} (c : RemoteCall) (op : R -> Result A * R) : M A :=
  fun w => answer op (logCall c w).

Definition lift {A} (r : Result A) : M A :=
  match r with
  | Ok a => ret a
  | Throw msg => fail (Raised msg)
  end.

(** *** Subscription layer *)

(** [createErrorEvent] of [listenDocumentById]. *)
Definition createErrorEvent (docId : string) : FileAlertEvent :=
  let errFile :=
    set_content
      (errorContent "File Not Found" ("Document with id='" ++ docId ++ "' not found"))
      (set_id (IdStr docId) (newJsonFile cls)) in
  mkEvent "error" (Some errFile).

(** [currentState$]: the latest snapshot, taken once, looked up at [docId]. *)
Definition currentState (docId : string) : M FileAlertEvent :=
  mapO <- cachedFiles_now ;;
  ret (match JsMap.get (IdStr docId) mapO with
       | Some f => mkEvent "load" (Some f)
       | None => createErrorEvent docId
       end).

(** [futureState$] on the events that go through [_fileEvent$] after the
    subscription: [filter(({ file }) => file.id === docId)].  Reading [id]
    of a [null] file throws, which ends the stream with that error. *)
Fixpoint futureState (docId : string) (events : list FileAlertEvent)
  : list FileAlertEvent * option Failure :=
  match events with
  | [] => ([], None)
  | e :: rest =>
      match file e with
      | None => ([], Some (Raised "TypeError: Cannot read property 'id' of null"))
      | Some f =>
          let (out, err) := futureState docId rest in
          if JsId_eqb (id f) (IdStr docId) then (e :: out, err) else (out, err)
      end
  end.

(** [listenDocumentById(docId)] subscribed in the world [w], with [later] the
    events that the subject delivers to the subscriber after the
    subscription: what the subscriber has received, and the error that ended
    the stream if there is one.  [merge] subscribes [currentState$] first,
    and the snapshot is replayed on the spot.  (The subject delivers an
    event that was published from within a delivery, as the unloads of
    [unloadById] are, before the event that was being delivered.) *)
Definition listenDocumentById (docId : string) (w : World)
  (later : list FileAlertEvent) : list FileAlertEvent * option Failure :=
  match fst (currentState docId w) with
  | Failed e => ([], Some e)
  | Next current =>
      let (out, err) := futureState docId later in (current :: out, err)
  end.

(** [listenDocuments()] on one snapshot. *)
Definition listenDocuments (mapO : JsMap.t) : list JsonFile := JsMap.values mapO.

(** *** Load and unload *)

(** The [map] step of [getJsonFileFromDrive] on the metadata. *)
Definition onMetadata (res : FileMeta) : Result JsonFile :=
  if negb (canDownload res) then
    Throw ("Cannot Download File (capabilities.canDownload) - " ++ "[object Object]")
  else
    Ok (mkJsonFile (IdStr (meta_id res)) (meta_name res)
          (canRename res && canModifyContent res)
          (meta_modifiedTime res) (content (newJsonFile cls))).

(** The [map] step of [getJsonFileFromDrive] on the body. *)
Definition onMedia (f : JsonFile) (resBody : string) : JsonFile :=
  match JSON_parse JSON resBody with
  | Ok v => set_content v f
  | Throw msg => set_content (errorContent "Parsing" msg) f
  end.

Definition getJsonFileFromDrive (docID : string) : M JsonFile :=
  res <- call (CallFilesGet docID "*") (files_get drive docID) ;;
  f <- lift (onMetadata res) ;;
  resBody <- call (CallFilesGetMedia docID) (files_get_media drive docID) ;;
  ret (onMedia f resBody).

Definition loadById (docID : string) : M bool :=
  f <- getJsonFileFromDrive docID ;;
  next (mkEvent "load" (Some f)) ;;;
  ret true.

Definition unloadFile (f : option JsonFile) : M unit :=
  match f with
  | Some f' =>
      if notNullish (id f') then next (mkEvent "unload" (Some f')) else ret tt
  | None => ret tt
  end.

(** [docID?.length < 1] *)
Definition lengthBelowOne (docID : JsId) : bool :=
  match docID with
  | IdStr s => (String.length s <? 1)%nat
  | _ => false
  end.

(** How a stream stands once [subscribe] has returned. *)
Inductive Ending : Type :=
| Ongoing
| Ended.

Definition subscribeUnloader (docID : JsId) (w : World) : World :=
  mkWorld (fileEvents w) (cachedFiles w) (scanError w) (folderId w)
          (fileManagerAppFile w) (remote w) (calls w)
          (unloading w ++ [(tickets w, docID)]) (retired w) (deliveries w)
          (S (tickets w)).

(** What the subscription [t] was delivered since the world [before]. *)
Definition receivedSince (before : World) (t : nat) (w : World) : list bool :=
  map snd (filter (fun d => Nat.eqb (fst d) t)
                  (skipn (List.length (deliveries before)) (deliveries w))).

(** [unloadById(docID)], subscribed: what the subscriber has received when
    [subscribe] returns, how the stream stands then, and the world.
    [of(false)] delivers and completes.  Otherwise the subscriber is put on
    [_cachedFiles$] and the snapshot is replayed to it; the subscriber is
    already listed when [tap] publishes, so the snapshot that this
    publication makes reaches it before the value of the replay does.  There
    is no [take(1)]: the stream stays open, and [deliverTo] runs the same
    pipeline on every later snapshot. *)
Definition unloadById (docID : JsId) (w : World) : (list bool * Ending) * World :=
  if lengthBelowOne docID then (([false], Ended), w)
  else
    let w0 := revive w in
    let w1 := subscribeUnloader docID w0 in
    let w2 := notifyUnloader publish None (tickets w0, docID) w1 in
    ((receivedSince w1 (tickets w0) w2, Ongoing), w2).

(** The caller of [unloadById] closes the subscription [t]. *)
Definition unsubscribe (t : nat) (w : World) : World :=
  let others := filter (fun u : Unloader => negb (Nat.eqb (fst u) t)) in
  mkWorld (fileEvents w) (cachedFiles w) (scanError w) (folderId w)
          (fileManagerAppFile w) (remote w) (calls w)
          (others (unloading w))
          (map (fun p => mkPipeline (p_cachedFiles p) (p_scanError p)
                                    (others (p_unloading p))) (retired w))
          (deliveries w) (tickets w).

(** [mapO.forEach(file => this._fileEvent$.next({ action: 'unload', file }))] *)
Fixpoint forEachUnload (files : list JsonFile) : M unit :=
  match files with
  | [] => ret tt
  | f :: rest => next (mkEvent "unload" (Some f)) ;;; forEachUnload rest
  end.

Definition clearAllDocuments : M unit :=
  mapO <- cachedFiles_now ;;
  forEachUnload (JsMap.values mapO).

(** *** Discover or create *)

Definition folderName : string := "GloomhavenToolsDocs".
Definition fileNameAffix : string := "-gloomtools".
Definition fileManagerAppFileName : string := "file-manager-data.json".
Definition folderType : string := "application/vnd.google-apps.folder".

Definition folderQuery : ListQuery :=
  mkQuery None
    ("mimeType='" ++ folderType ++ "' and name='" ++ folderName ++ "' and trashed = false")
    "files(id)".

Definition folderMetadata : JsValue :=
  JObject [("mimeType", JString folderType); ("name", JString folderName);
           ("fields", JString "id")].

(** The part of [getFolderId] after the test of [_folderId]. *)
Definition discoverFolder : M string :=
  folders <- call (CallFilesList folderQuery) (files_list drive folderQuery) ;;
  match folders with
  | Some (folder :: _) => ret (ref_id folder)
  | _ => call (CallFilesCreate folderMetadata) (files_create drive folderMetadata)
  end.

Definition getFolderId : M string :=
  fun w =>
    match folderId w with
    | IdStr s => if (0 <? String.length s)%nat then ret s w else discoverFolder w
    | _ => discoverFolder w
    end.

Definition appDataQuery (name : string) : ListQuery :=
  mkQuery (Some "appDataFolder") ("name='" ++ name ++ "'") "files(id)".

Definition appDataMetadata (name : string) : JsValue :=
  JObject [("mimeType", JString "application/json"); ("name", JString name);
           ("parents", JArray [JString "appDataFolder"]); ("fields", JString "id")].

Definition getAppDataByName (name : string) : M JsonFile :=
  appfiles <- call (CallFilesList (appDataQuery name))
                   (files_list drive (appDataQuery name)) ;;
  docID <- match appfiles with
           | Some (appfile :: _) => ret (ref_id appfile)
           | _ => call (CallFilesCreate (appDataMetadata name))
                       (files_create drive (appDataMetadata name))
           end ;;
  getJsonFileFromDrive docID.

Definition resolveFileManagerAppFile : M JsonFile :=
  f <- getAppDataByName fileManagerAppFileName ;;
  (fun w => (Next f, setFileManagerAppFile f w)).

Definition getFileManagerAppFile : M JsonFile :=
  fun w =>
    match fileManagerAppFile w with
    | Some f =>
        match id f with
        | IdStr s =>
            if (0 <? String.length s)%nat then ret f w
            else resolveFileManagerAppFile w
        | _ => fail (Raised "TypeError: Cannot read property 'length'") w
        end
    | None => resolveFileManagerAppFile w
    end.

(** *** Save and create *)

Definition boundary : string := "-------314159265358979323846".
Definition delimiter : string := CRLF ++ "--" ++ boundary ++ CRLF.
Definition close_delim : string := CRLF ++ "--" ++ boundary ++ "--".

Definition multipartRequestBody (metadata : JsValue) (f : JsonFile) : string :=
  delimiter ++
  ("Content-Type: application/json" ++ CRLF ++ CRLF) ++
  JSON_stringify JSON metadata ++
  delimiter ++
  "Content-Type: " ++
  MIME_TYPE cls ++
  (CRLF ++ CRLF) ++
  contentAsString cls f ++
  close_delim.

Definition multipartHeaders : list (string * string) :=
  [("Content-Type", "multipart/related; boundary=" ++ DQUOTE ++ boundary ++ DQUOTE)].

Definition saveMetadata (f : JsonFile) : JsValue :=
  JObject [("name", JString (name f)); ("mimeType", JString (MIME_TYPE cls))].

(** The request of [saveJsonFileMetadata]: the metadata alone, no upload. *)
Definition metadataRequest (f : JsonFile) : Request :=
  mkRequest ("/drive/v3/files/" ++ idToString (id f)) "PATCH" [] []
            (ObjectBody (saveMetadata f)).

Definition saveJsonFileMetadata (f : JsonFile) : M bool :=
  call (CallRequest (metadataRequest f)) (request drive (metadataRequest f)) ;;;
  ret true.

Definition saveRequest (f : JsonFile) : Request :=
  mkRequest ("/upload/drive/v3/files/" ++ idToString (id f)) "PATCH"
            [("uploadType", "multipart")] multipartHeaders
            (TextBody (multipartRequestBody (saveMetadata f) f)).

Definition saveJsonFile (f : JsonFile) : M JsonFile :=
  let diff := getDiffData cls f in
  if negb (truthy diff) then ret f
  else
    call (CallRequest (saveRequest f)) (request drive (saveRequest f)) ;;;
    let saved := updateClone cls f in
    next (mkEvent "save" (Some saved)) ;;;
    ret saved.

Definition createMetadata (f : JsonFile) (folder : string) : JsValue :=
  JObject [("name", JString (name f)); ("parents", JArray [JString folder]);
           ("mimeType", JString (MIME_TYPE cls))].

Definition createRequest (f : JsonFile) (folder : string) : Request :=
  mkRequest "/upload/drive/v3/files" "POST"
            [("uploadType", "multipart")] multipartHeaders
            (TextBody (multipartRequestBody (createMetadata f folder) f)).

(** The document [createAndSaveNewJsonFile] builds before the call. *)
Definition freshJsonFile (name : string) (content : JsValue) : JsonFile :=
  let f := set_name (name ++ fileNameAffix ++ ".json") (newJsonFile cls) in
  match content with
  | JNull => f
  | _ => set_content content f
  end.

Definition createAndSaveNewJsonFile (name : string) (content : JsValue) : M JsonFile :=
  folder <- getFolderId ;;
  let f := freshJsonFile name content in
  response <- call (CallRequest (createRequest f folder))
                   (request drive (createRequest f folder)) ;;
  let created :=
    set_modifiedTime (result_modifiedTime response)
      (set_id (IdStr (result_id response)) f) in
  next (mkEvent "save" (Some created)) ;;;
  ret created.

(** *** Loading every accessible document *)

Definition allFilesQuery : ListQuery :=
  mkQuery None "mimeType='application/json' and trashed = false" "files(id, name)".

Definition getAllAccessibleFiles : M (option (list FileRef)) :=
  call (CallFilesList allFilesQuery) (files_list drive allFilesQuery).

(** [loadAllAccessibleFiles] merges one [loadById] per document: the loads
    are in flight together, and the answers of the drive arrive one at a
    time, in an order the service does not choose.  An inner load waits for
    its metadata, then for its body, then it has published its event and
    emitted [true]. *)
Inductive Load : Type :=
| AwaitMetadata (docID : string)
| AwaitMedia (docID : string) (f : JsonFile)
| Completed.

(** The state of [merge(...)] piped into [reduce((acc, val) => acc && val)]:
    the inner loads, the accumulator of [reduce] (no seed: absent before the
    first value) and the error that ended the merged stream, after which
    every inner subscription is closed. *)
Record Merge : Type := mkMerge {
  inner : list Load;
  reduced : option bool;
  failure : option Failure
}.

(** Subscribing the inner loads: each one sends its metadata request. *)
Definition subscribeLoads (files : list FileRef) (w : World) : Merge * World :=
  (mkMerge (map (fun f => AwaitMetadata (ref_id f)) files) None None,
   fold_left (fun w' f => logCall (CallFilesGet (ref_id f) "*") w') files w).

Definition reduceStep (acc : option bool) (val : bool) : option bool :=
  match acc with
  | None => Some val
  | Some a => Some (a && val)
  end.

(** The answer awaited by the inner load [i] arrives. *)
Definition arrival (i : nat) (s : Merge * World) : Merge * World :=
  let (m, w) := s in
  match failure m with
  | Some _ => s
  | None =>
      match nth_error (inner m) i with
      | Some (AwaitMetadata docID) =>
          match answer (files_get drive docID) w with
          | (Failed e, w') => (mkMerge (inner m) (reduced m) (Some e), w')
          | (Next res, w') =>
              match onMetadata res with
              | Throw msg => (mkMerge (inner m) (reduced m) (Some (Raised msg)), w')
              | Ok f =>
                  (mkMerge (replaceNth i (AwaitMedia docID f) (inner m)) (reduced m) None,
                   logCall (CallFilesGetMedia docID) w')
              end
          end
      | Some (AwaitMedia docID f) =>
          match answer (files_get_media drive docID) w with
          | (Failed e, w') => (mkMerge (inner m) (reduced m) (Some e), w')
          | (Next resBody, w') =>
              (mkMerge (replaceNth i Completed (inner m))
                       (reduceStep (reduced m) true) None,
               publish (mkEvent "load" (Some (onMedia f resBody))) w')
          end
      | _ => s
      end
  end.

Definition arrivals (schedule : list nat) (s : Merge * World) : Merge * World :=
  fold_left (fun s' i => arrival i s') schedule s.

(** What the subscriber of [loadAllAccessibleFiles] has received so far. *)
Inductive Verdict : Type :=
| Pending
| Emitted (b : bool)
| CompletedEmpty
| Errored (e : Failure).

Definition isCompleted (l : Load) : bool :=
  match l with Completed => true | _ => false end.

Definition verdict (m : Merge) : Verdict :=
  match failure m with
  | Some e => Errored e
  | None =>
      if forallb isCompleted (inner m) then
        match reduced m with
        | Some b => Emitted b
        | None => CompletedEmpty
        end
      else Pending
  end.

(** [loadAllAccessibleFiles()], with the order in which the answers to the
    inner loads arrive. *)
Definition loadAllAccessibleFiles (schedule : list nat) (w : World) : Verdict * World :=
  match getAllAccessibleFiles w with
  | (Failed e, w') => (Errored e, w')
  | (Next None, w') =>
      (Errored (Raised "TypeError: Cannot read property 'filter' of undefined"), w')
  | (Next (Some files), w') =>
      let (m, w'') := arrivals schedule (subscribeLoads files w') in
      (verdict m, w'')
  end.

(** *** Runs of the service *)

(** The calls a user of the service makes, one after the other.  The
    stream of [unloadById] is subscribed and left open; [OpUnsubscribe]
    closes the subscription of a given ticket. *)
Inductive Op : Type :=
| OpLoadById (docID : string)
| OpUnloadById (docID : JsId)
| OpUnsubscribe (ticket : nat)
| OpUnloadFile (f : option JsonFile)
| OpClearAllDocuments
| OpSaveJsonFile (f : JsonFile)
| OpSaveJsonFileMetadata (f : JsonFile)
| OpCreateAndSaveNewJsonFile (name : string) (content : JsValue)
| OpLoadAllAccessibleFiles (schedule : list nat)
| OpGetFolderId
| OpGetAppDataByName (name : string)
| OpGetFileManagerAppFile.

Definition run (op : Op) (w : World) : World :=
  match op with
  | OpLoadById docID => snd (loadById docID w)
  | OpUnloadById docID => snd (unloadById docID w)
  | OpUnsubscribe t => unsubscribe t w
  | OpUnloadFile f => snd (unloadFile f w)
  | OpClearAllDocuments => snd (clearAllDocuments w)
  | OpSaveJsonFile f => snd (saveJsonFile f w)
  | OpSaveJsonFileMetadata f => snd (saveJsonFileMetadata f w)
  | OpCreateAndSaveNewJsonFile name content =>
      snd (createAndSaveNewJsonFile name content w)
  | OpLoadAllAccessibleFiles schedule => snd (loadAllAccessibleFiles schedule w)
  | OpGetFolderId => snd (getFolderId w)
  | OpGetAppDataByName name => snd (getAppDataByName name w)
  | OpGetFileManagerAppFile => snd (getFileManagerAppFile w)
  end.

Definition runAll (ops : list Op) (w : World) : World :=
  fold_left (fun w' op => run op w') ops w.

(** ** Specifications *)

(** [hoare P m Q E]: from a world in [P], [m] ends in [Q a] when it delivers
    [a] and in [E] when it fails. *)
Definition hoare {A} (P : World -> Prop) (m : M A)
  (Q : A -> World -> Prop) (E : World -> Prop) : Prop :=
  forall w, P w ->
    match m w with
    | (Next a, w') => Q a w'
    | (Failed _, w') => E w'
    end.

(** Two worlds with the same subject and the same snapshot. *)
Definition sameBus (w w' : World) : Prop :=
  fileEvents w' = fileEvents w /\ cachedFiles w' = cachedFiles w
  /\ scanError w' = scanError w.

(** A property of the subject and the snapshot only. *)
Definition onBus (I : World -> Prop) : Prop :=
  forall w w', sameBus w w' -> I w -> I w'.

Definition isRequest (c : RemoteCall) : bool :=
  match c with CallRequest _ => true | _ => false end.

(** A property that the answers of the store and the calls other than
    uploads leave alone. *)
Definition passive (I : World -> Prop) : Prop :=
  (forall r w, I w -> I (setRemote r w))
  /\ (forall c w, isRequest c = false -> I w -> I (logCall c w)).

(** A request as the service builds them: the upload of a save, the upload
    of a create, or the metadata alone. *)
Definition callOk (c : RemoteCall) : Prop :=
  match c with
  | CallRequest req =>
      (exists f, req = saveRequest f)
      \/ (exists f folder, req = createRequest f folder)
      \/ (exists f, req = metadataRequest f)
  | _ => True
  end.

(** An event as the operations publish them: one of the three actions they
    use, and a document that satisfies [P]. *)
Definition carries (P : JsonFile -> Prop) (e : FileAlertEvent) : Prop :=
  isOneOf (action e) ["load"; "unload"; "save"] = true
  /\ exists f, file e = Some f /\ P f.

(** The subscriber [u] of [unloadById] publishes on the snapshot [m]: its
    id is there, with a document that [unloadFile] lets through. *)
Definition fires (m : JsMap.t) (u : Unloader) : bool :=
  match JsMap.get (snd u) m with
  | Some f => notNullish (id f)
  | None => false
  end.

(** What the subscribers [us] are delivered on the snapshot [m] when none of
    them publishes. *)
Definition told (m : JsMap.t) (us : list Unloader) : list (nat * bool) :=
  map (fun u : Unloader => (fst u, isSome (JsMap.get (snd u) m))) us.

(** An open subscription of [unloadById] looks [k] up. *)
Definition watching (k : JsId) (w : World) : bool :=
  existsb (fun u : Unloader => JsId_eqb (snd u) k) (unloading w).

(** The service between two operations: no pipeline was replaced, and no
    open subscription of [unloadById] finds a document to unload. *)
Definition calm (w : World) : Prop :=
  retired w = [] /\ Forall (fun u => fires (cachedFiles w) u = false) (unloading w).

(** The invariant of the service: the fold is alive, the snapshot is the
    fold of the published events, the events and the cached documents are
    as the operations make them, and so are the uploads; the service is
    calm, and the tickets of the open subscriptions were handed out. *)
Record Inv (P : JsonFile -> Prop) (w : World) : Prop := mkInv {
  inv_alive : scanError w = None;
  inv_fold : cachedFilesAfter (fileEvents w) = Ok (cachedFiles w);
  inv_events : Forall (carries P) (fileEvents w);
  inv_cache : Forall (fun kv => fst kv = id (snd kv) /\ P (snd kv)) (cachedFiles w);
  inv_calls : Forall callOk (calls w);
  inv_calm : calm w;
  inv_tickets : Forall (fun u : Unloader => fst u < tickets w) (unloading w)
}.

(** What a publication leaves alone: the store, the calls and the two
    fields that the operations on the store fill. *)
Definition frame (w w' : World) : Prop :=
  calls w' = calls w /\ remote w' = remote w /\ folderId w' = folderId w
  /\ fileManagerAppFile w' = fileManagerAppFile w.

(** An event that a subscriber of [unloadById] publishes: the unload of a
    document that has an id. *)
Definition reaction (e : FileAlertEvent) : Prop :=
  exists f, e = mkEvent "unload" (Some f) /\ notNullish (id f) = true.

(** [w'] has the events of [w] and, after them, reactions only. *)
Definition grows (w w' : World) : Prop :=
  exists l, fileEvents w' = (fileEvents w ++ l)%list /\ Forall reaction l.

(** No subscription of [unloadById] is open, on any pipeline. *)
Definition quiet (w : World) : Prop :=
  unloading w = [] /\ Forall (fun p => p_unloading p = []) (retired w).

Definition logDeliveries (ds : list (nat * bool)) (w : World) : World :=
  mkWorld (fileEvents w) (cachedFiles w) (scanError w) (folderId w)
          (fileManagerAppFile w) (remote w) (calls w)
          (unloading w) (retired w) (deliveries w ++ ds) (tickets w).

(** The documents held by loads that wait for their body have an id. *)
Definition loadOk (l : Load) : Prop :=
  match l with
  | AwaitMedia _ f => exists s, id f = IdStr s
  | _ => True
  end.

Definition anyFile (f : JsonFile) : Prop := True.

(** What a run may be given: a document passed to [saveJsonFile] that has a
    diff has a clone in [P]. *)
Definition opOk (P : JsonFile -> Prop) (op : Op) : Prop :=
  match op with
  | OpSaveJsonFile f => truthy (getDiffData cls f) = true -> P (updateClone cls f)
  | _ => True
  end.

(** The error of [getJsonFileFromDrive] on a document that cannot be
    downloaded. *)
Definition cannotDownload : Failure :=
  Raised ("Cannot Download File (capabilities.canDownload) - " ++ "[object Object]").



(** [_folderId] is not a string with characters. *)
Definition noFolderId (w : World) : Prop :=
  match folderId w with
  | IdStr s => (0 <? String.length s)%nat = false
  | _ => True
  end.

Definition nonEmptyId (f : JsonFile) : Prop :=
  exists s, id f = IdStr s /\ (0 <? String.length s)%nat = true.

(** The calls already made stay in the log, in their order. *)
Definition extends (before : list RemoteCall) (w : World) : Prop :=
  exists more, calls w = (before ++ more)%list.

(** ** Further definitions *)

(** The five actions [accumulator] knows. *)
Definition recognised (a : FileAlertAction) : bool :=
  isOneOf a ["load"; "save"; "update"; "unload"; "error"].

(** The actions on which [accumulator] writes an entry. *)
Definition upserts (a : FileAlertAction) : bool :=
  isOneOf a ["load"; "save"; "update"].

(** The actions on which [accumulator] removes an entry. *)
Definition removes (a : FileAlertAction) : bool :=
  isOneOf a ["unload"; "error"].

(** An event on which [accumulator] throws: it has a document, and an
    action that is none of the five. *)
Definition throwsOn (e : FileAlertEvent) : bool :=
  isSome (file e) && negb (recognised (action e)).

(** An event whose document has the id [k]. *)
Definition aboutId (k : JsId) (e : FileAlertEvent) : bool :=
  match file e with
  | Some f => JsId_eqb (id f) k
  | None => false
  end.

Definition loadOf (f : JsonFile) : FileAlertEvent := mkEvent "load" (Some f).
Definition unloadOf (f : JsonFile) : FileAlertEvent := mkEvent "unload" (Some f).
Definition saveOf (f : JsonFile) : FileAlertEvent := mkEvent "save" (Some f).

(** [initializeFileCashe()] when the service is running: [_cachedFiles$]
    becomes a new [scan] over a new [Map], seeded by the sentinel; the
    subject replays nothing of what it delivered before.  The pipeline that
    was there stays subscribed to the subject, with its [Map] and with the
    subscriptions that are open on it. *)
Definition initializeFileCashe (w : World) : World :=
  mkWorld (fileEvents w) JsMap.empty None (folderId w) (fileManagerAppFile w)
          (remote w) (calls w)
          [] (retired w ++ [mkPipeline (cachedFiles w) (scanError w) (unloading w)])
          (deliveries w) (tickets w).



(** *** The character page *)

(** Modelled from the spec: the members of [CharacterFile]
    (src/app/model_data/character-file.ts is not part of the sources at
    hand) that [CharacterComponent] reads: [isCharacter] and
    [character.name]. *)
Record CharacterFile : Type := mkCharacterFile {
  isCharacter : bool;
  character_name : string;
  jsonFile : JsonFile
}.

(** What the stream of [listenCharacterFileByDocId] delivers. *)
Record CharacterEvent : Type := mkCharacterEvent {
  cAction : FileAlertAction;
  cFile : CharacterFile
}.

(** The fields of [CharacterComponent]; [characterSubscription] is the
    document id of the stream the component is subscribed to. *)
Record CharacterComponent : Type := mkComponent {
  errorMessage : string;
  newCharacter : bool;
  docId : string;
  characterFile : option CharacterFile;
  characterSubscription : option string
}.

(** The fields as the constructor leaves them. *)
Definition newComponent : CharacterComponent :=
  mkComponent EmptyString true "none" None None.

(** The callback [resolveDocId] subscribes with. *)
Definition onCharacterEvent (ev : CharacterEvent) (c : CharacterComponent)
  : CharacterComponent :=
  if isCharacter (cFile ev) then
    if (cAction ev =? "update") || (cAction ev =? "load") then
      mkComponent (errorMessage c) (newCharacter c) (docId c)
                  (Some (cFile ev)) (characterSubscription c)
    else if cAction ev =? "unload" then
      mkComponent (character_name (cFile ev)
                   ++ " was just unloaded and is no longer in memory")
                  (newCharacter c) (docId c) None (characterSubscription c)
    else c
  else c.

(** [resolveDocId(docId)]: for ["new"] the subscription is left as it is;
    for another id the old one is closed and a new one opened. *)
Definition resolveDocId (d : string) (c : CharacterComponent) : CharacterComponent :=
  if d =? "new" then
    mkComponent (errorMessage c) true d (characterFile c) (characterSubscription c)
  else
    mkComponent (errorMessage c) false d (characterFile c) (Some d).

(** The events that make [onCharacterEvent] write a field. *)
Definition decisive (ev : CharacterEvent) : bool :=
  isCharacter (cFile ev)
  && isOneOf (cAction ev) ["update"; "load"; "unload"].

Definition deliverAll (events : list CharacterEvent) (c : CharacterComponent)
  : CharacterComponent :=
  fold_left (fun c' ev => onCharacterEvent ev c') events c.

(** ** Reasoning about operations *)

(** *** Lemmas on the map *)

Lemma JsId_eqb_eq (x y : JsId) : JsId_eqb x y = true <-> x = y.
Proof.
  destruct x, y; simpl; try (split; congruence).
  rewrite String.eqb_eq. split; congruence.
Qed.

Lemma JsId_eqb_refl (x : JsId) : JsId_eqb x x = true.
Proof. apply JsId_eqb_eq. reflexivity. Qed.

Lemma JsId_eqb_neq (x y : JsId) : JsId_eqb x y = false <-> x <> y.
Proof.
  rewrite <- JsId_eqb_eq. destruct (JsId_eqb x y); split; congruence.
Qed.

Lemma JsId_eqb_sym (x y : JsId) : JsId_eqb x y = JsId_eqb y x.
Proof.
  destruct (JsId_eqb y x) eqn:E.
  - apply JsId_eqb_eq in E. subst. apply JsId_eqb_refl.
  - apply JsId_eqb_neq. apply JsId_eqb_neq in E. congruence.
Qed.

Lemma get_set_same k v m : JsMap.get k (JsMap.set k v m) = Some v.
Proof.
  induction m as [|[k' v'] m IH]; simpl.
  - now rewrite JsId_eqb_refl.
  - destruct (JsId_eqb k k') eqn:E; simpl.
    + now rewrite JsId_eqb_refl.
    + now rewrite E.
Qed.

Lemma get_set_other k k' v m :
  k' <> k -> JsMap.get k' (JsMap.set k v m) = JsMap.get k' m.
Proof.
  intros Hne. induction m as [|[k0 v0] m IH]; simpl.
  - apply JsId_eqb_neq in Hne. now rewrite Hne.
  - destruct (JsId_eqb k k0) eqn:E; simpl.
    + apply JsId_eqb_eq in E. subst k0.
      apply JsId_eqb_neq in Hne. now rewrite Hne.
    + now rewrite IH.
Qed.

Lemma get_delete_same k m : JsMap.get k (JsMap.delete k m) = None.
Proof.
  unfold JsMap.delete.
  induction m as [|[k' v'] m IH]; simpl; auto.
  destruct (JsId_eqb k k') eqn:E; simpl; auto.
  now rewrite E.
Qed.

Lemma get_delete_other k k' m :
  k' <> k -> JsMap.get k' (JsMap.delete k m) = JsMap.get k' m.
Proof.
  intros Hne. unfold JsMap.delete.
  induction m as [|[k0 v0] m IH]; simpl; auto.
  destruct (JsId_eqb k k0) eqn:E; simpl.
  - apply JsId_eqb_eq in E. subst k0.
    apply JsId_eqb_neq in Hne. now rewrite Hne.
  - now rewrite IH.
Qed.

Lemma delete_absent k m : JsMap.get k m = None -> JsMap.delete k m = m.
Proof.
  unfold JsMap.delete.
  induction m as [|[k' v'] m IH]; simpl; auto.
  destruct (JsId_eqb k k') eqn:E; simpl; [discriminate|].
  intros H. now rewrite IH.
Qed.

(** ** The fold step (C1) and the fold (C4) *)

(** C1.  One step of the reducer of the cache projector.  An event without a
    file leaves the snapshot as it is.  Otherwise: for the actions load, save
    and update the new snapshot maps the id of the event's file to that file;
    for unload and error the new snapshot has no entry for that id, and it is
    the old snapshot itself when there was none; any other action makes the
    step throw the unrecognised-event error.  Whenever the step returns a
    snapshot, the entries of all other ids are the entries of the old one. *)
Theorem accumulator_step (accMap : JsMap.t) (event : FileAlertEvent) :
  (file event = None -> accumulator accMap event = Ok accMap)
  /\ (forall f, file event = Some f ->
       (isOneOf (action event) ["load"; "save"; "update"] = true ->
          exists m', accumulator accMap event = Ok m'
                     /\ JsMap.get (id f) m' = Some f)
       /\ (isOneOf (action event) ["unload"; "error"] = true ->
          exists m', accumulator accMap event = Ok m'
                     /\ JsMap.get (id f) m' = None
                     /\ (JsMap.get (id f) accMap = None -> m' = accMap))
       /\ (isOneOf (action event) ["load"; "save"; "update"; "unload"; "error"] = false ->
          accumulator accMap event
          = Throw ("Unrecognised FileAlertEvent: " ++ action event))
       /\ (forall m' k, accumulator accMap event = Ok m' -> k <> id f ->
          JsMap.get k m' = JsMap.get k accMap)).
Proof.
  unfold accumulator, isOneOf. simpl. split.
  - intros ->. reflexivity.
  - intros f ->.
    destruct (action event =? "error") eqn:Ee;
    destruct (action event =? "unload") eqn:Eu;
    destruct (action event =? "load") eqn:El;
    destruct (action event =? "save") eqn:Es;
    destruct (action event =? "update") eqn:Ep; simpl;
    try (apply String.eqb_eq in Ee); try (apply String.eqb_eq in Eu);
    try (apply String.eqb_eq in El); try (apply String.eqb_eq in Es);
    try (apply String.eqb_eq in Ep); try congruence;
    repeat split; try discriminate; intros;
    try (eexists; split; [reflexivity|]);
    try match goal with H : Ok _ = Ok _ |- _ => inversion H; subst; clear H end;
    auto using get_set_same, get_set_other, get_delete_same, get_delete_other,
               delete_absent.
Qed.

Lemma scan_app (acc : JsMap.t) (pre suf : list FileAlertEvent) :
  scan acc (pre ++ suf) = andThen (scan acc pre) (fun m => scan m suf).
Proof.
  revert acc. induction pre as [|e pre IH]; intros acc; simpl.
  - reflexivity.
  - destruct (accumulator acc e) as [acc'|msg]; simpl; auto.
Qed.

Lemma cachedFilesAfter_scan (published : list FileAlertEvent) :
  cachedFilesAfter published = scan JsMap.empty published.
Proof. reflexivity. Qed.

Lemma hoare_ret {A} (a : A) (Q : A -> World -> Prop) E : hoare (Q a) (ret a) Q E.
Proof. intros w H. exact H. Qed.

Lemma hoare_ret_keep {A} (a : A) (I : World -> Prop) :
  hoare I (ret a) (fun _ => I) I.
Proof. intros w H. exact H. Qed.

Lemma hoare_fail {A} e (Q : A -> World -> Prop) (E : World -> Prop) :
  hoare E (fail e) Q E.
Proof. intros w H. exact H. Qed.

Lemma hoare_bind {A B} P (m : M A) Q (k : A -> M B) Q' E :
  hoare P m Q E -> (forall a, hoare (Q a) (k a) Q' E) ->
  hoare P (bind m k) Q' E.
Proof.
  intros Hm Hk w HP. unfold bind. specialize (Hm w HP).
  destruct (m w) as [[a|e] w']; auto. apply Hk, Hm.
Qed.

Lemma hoare_weaken {A} (P P' : World -> Prop) (m : M A)
  (Q Q' : A -> World -> Prop) (E E' : World -> Prop) :
  hoare P m Q E -> (forall w, P' w -> P w) ->
  (forall a w, Q a w -> Q' a w) -> (forall w, E w -> E' w) ->
  hoare P' m Q' E'.
Proof.
  intros H HP HQ HE w Hw. specialize (H w (HP w Hw)).
  destruct (m w) as [[a|e] w']; auto.
Qed.

Lemma hoare_snd {A} (I : World -> Prop) (m : M A) w :
  hoare I m (fun _ => I) I -> I w -> I (snd (m w)).
Proof.
  intros H Hw. specialize (H w Hw). destruct (m w) as [[a|e] w']; exact H.
Qed.

Lemma hoare_from {A} (P I : World -> Prop) (m : M A) w :
  hoare P m (fun _ => I) I -> P w -> I (snd (m w)).
Proof.
  intros H Hw. specialize (H w Hw). destruct (m w) as [[a|e] w']; exact H.
Qed.

Lemma sameBus_refl w : sameBus w w.
Proof. repeat split. Qed.

Lemma sameBus_trans w1 w2 w3 : sameBus w1 w2 -> sameBus w2 w3 -> sameBus w1 w3.
Proof. unfold sameBus. intuition congruence. Qed.

Lemma sameBus_onBus w0 : onBus (sameBus w0).
Proof. intros w w' H H0. eapply sameBus_trans; eauto. Qed.

Lemma onBus_passive I : onBus I -> passive I.
Proof.
  intros HI. repeat split; intros; (eapply HI; [|eassumption]); repeat split.
Qed.

Lemma hoare_answer {A} (I : World -> Prop) (op : R -> Result A * R) :
  passive I -> hoare I (answer op) (fun _ => I) I.
Proof.
  intros (Hr & _) w Hw. unfold answer.
  destruct (op (remote w)) as [[a|reason] r]; simpl; auto.
Qed.

Lemma hoare_call {A} (I : World -> Prop) c (op : R -> Result A * R) :
  passive I -> isRequest c = false -> hoare I (call c op) (fun _ => I) I.
Proof.
  intros HI Hc w Hw. unfold call. apply hoare_answer; auto.
  destruct HI as (_ & Hl). auto.
Qed.

Lemma hoare_request {A} (I : World -> Prop) req (op : R -> Result A * R) :
  passive I -> (forall w, I w -> I (logCall (CallRequest req) w)) ->
  hoare I (call (CallRequest req) op) (fun _ => I) I.
Proof.
  intros HI Hc w Hw. unfold call. apply hoare_answer; auto.
Qed.

Lemma hoare_lift {A} (I : World -> Prop) (r : Result A) :
  hoare I (lift r) (fun _ => I) I.
Proof. intros w Hw. destruct r; exact Hw. Qed.

Lemma revive_alive w : scanError w = None -> revive w = w.
Proof. unfold revive. now intros ->. Qed.

Lemma cachedFiles_revive w : cachedFiles (revive w) = cachedFiles w.
Proof. unfold revive. destruct (scanError w); reflexivity. Qed.

Lemma hoare_cachedFiles_now (I : World -> Prop) :
  (forall w, I w -> I (revive w)) ->
  hoare I cachedFiles_now (fun mapO w => I w /\ mapO = cachedFiles w) I.
Proof.
  intros Hr w Hw. unfold cachedFiles_now. split; auto.
  symmetry. apply cachedFiles_revive.
Qed.

Lemma hoare_getJsonFileFromDrive (I : World -> Prop) docID :
  passive I ->
  hoare I (getJsonFileFromDrive docID)
        (fun f w => I w /\ exists s, id f = IdStr s) I.
Proof.
  intros HI. unfold getJsonFileFromDrive.
  eapply hoare_bind; [apply hoare_call; auto|]. intros res. simpl.
  eapply hoare_bind with (Q := fun f w => I w /\ exists s, id f = IdStr s).
  - intros w Hw. unfold onMetadata.
    destruct (negb (canDownload res)); simpl; eauto.
  - intros f. eapply hoare_bind with (Q := fun _ w => I w /\ exists s, id f = IdStr s).
    + intros w [Hw Hf]. specialize (hoare_call I (CallFilesGetMedia docID)
        (files_get_media drive docID) HI eq_refl w Hw).
      destruct (call _ _ w) as [[a|e] w']; auto.
    + intros resBody w [Hw [s Hs]]. simpl. split; auto.
      exists s. unfold onMedia. destruct (JSON_parse JSON resBody); exact Hs.
Qed.

Lemma hoare_getFolderId (I : World -> Prop) :
  passive I -> hoare I getFolderId (fun _ => I) I.
Proof.
  intros HI.
  assert (Hd : hoare I discoverFolder (fun _ => I) I).
  { unfold discoverFolder.
    eapply hoare_bind; [apply hoare_call; auto|].
    intros [[|folder rest]|]; try apply hoare_ret_keep; apply hoare_call; auto. }
  intros w Hw. unfold getFolderId.
  destruct (folderId w) as [| |s]; try (apply Hd; exact Hw).
  destruct (0 <? String.length s)%nat; [exact Hw | apply Hd; exact Hw].
Qed.

Lemma hoare_getAppDataByName (I : World -> Prop) name :
  passive I -> hoare I (getAppDataByName name) (fun _ => I) I.
Proof.
  intros HI. unfold getAppDataByName.
  eapply hoare_bind; [apply hoare_call; auto|]. intros appfiles.
  eapply hoare_bind with (Q := fun _ => I).
  - destruct appfiles as [[|appfile rest]|]; try apply hoare_ret_keep;
      apply hoare_call; auto.
  - intros docID. eapply hoare_weaken;
      [apply hoare_getJsonFileFromDrive, HI| | |]; simpl; intuition.
Qed.

Lemma hoare_getFileManagerAppFile (I : World -> Prop) :
  passive I -> (forall f w, I w -> I (setFileManagerAppFile f w)) ->
  hoare I getFileManagerAppFile (fun _ => I) I.
Proof.
  intros HI Hf.
  assert (Hr : hoare I resolveFileManagerAppFile (fun _ => I) I).
  { unfold resolveFileManagerAppFile.
    eapply hoare_bind; [apply hoare_getAppDataByName, HI|].
    intros f w Hw. simpl. auto. }
  intros w Hw. unfold getFileManagerAppFile.
  destruct (fileManagerAppFile w) as [f|]; [|apply Hr; exact Hw].
  destruct (id f) as [| |s]; try exact Hw.
  destruct (0 <? String.length s)%nat; [exact Hw | apply Hr; exact Hw].
Qed.

(** *** Publication *)

Lemma fold_left_rel {A} (Rel : World -> World -> Prop) (f : World -> A -> World)
  (l : list A) (w : World) :
  (forall a, Rel a a) -> (forall a b c, Rel a b -> Rel b c -> Rel a c) ->
  (forall x w', Rel w' (f w' x)) -> Rel w (fold_left f l w).
Proof.
  intros Hrefl Htrans Hstep. revert w.
  induction l as [|x l IH]; intros w; simpl; [apply Hrefl|].
  eapply Htrans; [apply Hstep|apply IH].
Qed.

Lemma frame_refl w : frame w w.
Proof. repeat split. Qed.

Lemma frame_trans a b c : frame a b -> frame b c -> frame a c.
Proof. unfold frame. intuition congruence. Qed.

Lemma frame_setPipelineAt i p w : frame w (setPipelineAt i p w).
Proof. destruct i; repeat split. Qed.

Lemma frame_logDelivery t b w : frame w (logDelivery t b w).
Proof. repeat split. Qed.

Lemma frame_notifyUnloader pub i u w :
  (forall e w', frame w' (pub e w')) -> frame w (notifyUnloader pub i u w).
Proof.
  intros Hpub. unfold notifyUnloader.
  destruct (pipelineAt i w) as [p|]; [|apply frame_refl].
  cbv zeta. eapply frame_trans; [|apply frame_logDelivery].
  destruct (JsMap.get (snd u) (p_cachedFiles p)) as [f|]; [|apply frame_refl].
  destruct (notNullish (id f)); [apply Hpub|apply frame_refl].
Qed.

Lemma frame_deliverTo pub i e w :
  (forall e' w', frame w' (pub e' w')) -> frame w (deliverTo pub i e w).
Proof.
  intros Hpub. unfold deliverTo.
  destruct (pipelineAt i w) as [p|]; [|apply frame_refl].
  destruct (p_scanError p); [apply frame_refl|].
  destruct (accumulator (p_cachedFiles p) e) as [m|msg];
    [|apply frame_setPipelineAt].
  eapply frame_trans; [apply frame_setPipelineAt|].
  apply (fold_left_rel frame);
    [apply frame_refl|apply frame_trans|intros; now apply frame_notifyUnloader].
Qed.

Lemma publishWith_S n e w :
  publishWith (S n) e w
  = fold_left (fun w' i => deliverTo (publishWith n) i e w')
              (map Some (seq 0 (List.length (retired w))) ++ [None])%list
              (logEvent e w).
Proof. reflexivity. Qed.

Lemma frame_publishWith n e w : frame w (publishWith n e w).
Proof.
  revert e w. induction n as [|n IH]; intros e w; simpl; [apply frame_refl|].
  eapply frame_trans with (b := logEvent e w); [repeat split|].
  apply (fold_left_rel frame);
    [apply frame_refl|apply frame_trans|intros; apply frame_deliverTo, IH].
Qed.

Lemma frame_publish e w : frame w (publish e w).
Proof. apply frame_publishWith. Qed.

Lemma frame_revive w : frame w (revive w).
Proof. unfold revive. destruct (scanError w); repeat split. Qed.

Lemma frame_unloadById docID w : frame w (snd (unloadById docID w)).
Proof.
  unfold unloadById. destruct (lengthBelowOne docID); simpl; [apply frame_refl|].
  eapply frame_trans; [apply frame_revive|].
  eapply frame_trans with (b := subscribeUnloader docID (revive w)); [repeat split|].
  apply frame_notifyUnloader. intros; apply frame_publish.
Qed.

Lemma grows_refl w : grows w w.
Proof. exists []. split; [now rewrite app_nil_r|constructor]. Qed.

Lemma grows_trans a b c : grows a b -> grows b c -> grows a c.
Proof.
  intros (l1 & H1 & F1) (l2 & H2 & F2). exists (l1 ++ l2)%list. split.
  - now rewrite H2, H1, app_assoc.
  - apply Forall_app. auto.
Qed.

Lemma grows_same w w' : fileEvents w' = fileEvents w -> grows w w'.
Proof. intros H. exists []. split; [now rewrite app_nil_r|constructor]. Qed.

Lemma grows_logDelivery t b w : grows w (logDelivery t b w).
Proof. apply grows_same. reflexivity. Qed.

Lemma grows_setPipelineAt i p w : grows w (setPipelineAt i p w).
Proof. apply grows_same. destruct i; reflexivity. Qed.

Lemma grows_notifyUnloader pub i u w :
  (forall f w', notNullish (id f) = true -> grows w' (pub (mkEvent "unload" (Some f)) w')) ->
  grows w (notifyUnloader pub i u w).
Proof.
  intros Hpub. unfold notifyUnloader.
  destruct (pipelineAt i w) as [p|]; [|apply grows_refl].
  cbv zeta. eapply grows_trans; [|apply grows_logDelivery].
  destruct (JsMap.get (snd u) (p_cachedFiles p)) as [f|]; [|apply grows_refl].
  destruct (notNullish (id f)) eqn:E; [now apply Hpub|apply grows_refl].
Qed.

Lemma grows_deliverTo pub i e w :
  (forall f w', notNullish (id f) = true -> grows w' (pub (mkEvent "unload" (Some f)) w')) ->
  grows w (deliverTo pub i e w).
Proof.
  intros Hpub. unfold deliverTo.
  destruct (pipelineAt i w) as [p|]; [|apply grows_refl].
  destruct (p_scanError p); [apply grows_refl|].
  destruct (accumulator (p_cachedFiles p) e) as [m|msg];
    [|apply grows_setPipelineAt].
  eapply grows_trans; [apply grows_setPipelineAt|].
  apply (fold_left_rel grows);
    [apply grows_refl|apply grows_trans|intros; now apply grows_notifyUnloader].
Qed.

Lemma grows_publishWith n f w :
  notNullish (id f) = true -> grows w (publishWith n (mkEvent "unload" (Some f)) w).
Proof.
  revert f w. induction n as [|n IH]; intros f w Hf; simpl; [apply grows_refl|].
  eapply grows_trans with (b := logEvent (mkEvent "unload" (Some f)) w).
  - exists [mkEvent "unload" (Some f)]. split; [reflexivity|].
    constructor; [|constructor]. exists f. auto.
  - apply (fold_left_rel grows);
      [apply grows_refl|apply grows_trans|intros; apply grows_deliverTo; auto].
Qed.

(** A publication logs its event; what follows it in the log are the
    unloads that subscribers of [unloadById] publish in return. *)
Lemma publish_log e w :
  exists reactions,
    fileEvents (publish e w) = (fileEvents w ++ e :: reactions)%list
    /\ Forall reaction reactions.
Proof.
  unfold publish, depth. rewrite publishWith_S.
  match goal with
  | |- context [fold_left ?f ?l ?w0] =>
      assert (H : grows w0 (fold_left f l w0))
  end.
  { apply (fold_left_rel grows);
      [apply grows_refl|apply grows_trans|
       intros; apply grows_deliverTo; intros; now apply grows_publishWith]. }
  destruct H as (l & Hl & HF). exists l. split; auto.
  rewrite Hl. simpl. now rewrite <- app_assoc.
Qed.

Lemma quiet_pipelineAt i w p :
  quiet w -> pipelineAt i w = Some p -> p_unloading p = [].
Proof.
  intros [Hu Hr]. destruct i as [n|]; simpl.
  - intros Hn. rewrite Forall_forall in Hr. eapply Hr, nth_error_In, Hn.
  - intros H. inversion H. exact Hu.
Qed.

Lemma Forall_replaceNth {A} (Q : A -> Prop) i x (l : list A) :
  Q x -> Forall Q l -> Forall Q (replaceNth i x l).
Proof.
  intros Hx H. revert i. induction H as [|y l Hy Hl IH]; intros i.
  - destruct i; constructor.
  - destruct i; simpl; constructor; auto.
Qed.

Lemma quiet_setPipelineAt i m err w :
  quiet w -> quiet (setPipelineAt i (mkPipeline m err []) w).
Proof.
  intros [Hu Hr]. destruct i as [n|]; split; simpl; auto.
  apply Forall_replaceNth; auto.
Qed.

Lemma quiet_deliverTo pub i e w :
  quiet w ->
  quiet (deliverTo pub i e w) /\ fileEvents (deliverTo pub i e w) = fileEvents w.
Proof.
  intros Hq. unfold deliverTo.
  destruct (pipelineAt i w) as [p|] eqn:Ep; [|auto].
  rewrite (quiet_pipelineAt i w p Hq Ep).
  destruct (p_scanError p); [auto|].
  destruct (accumulator (p_cachedFiles p) e) as [m|msg]; simpl;
    (split; [now apply quiet_setPipelineAt|destruct i; reflexivity]).
Qed.

(** With no subscription of [unloadById] open, a publication logs its event
    and nothing else. *)
Lemma quiet_publish e w :
  quiet w ->
  quiet (publish e w) /\ fileEvents (publish e w) = (fileEvents w ++ [e])%list.
Proof.
  intros Hq. unfold publish, depth. rewrite publishWith_S.
  generalize (publishWith
                (S (List.length (cachedFiles w) + List.length (retired w)
                    + list_sum (map (fun p => List.length (p_cachedFiles p))
                                    (retired w))))).
  intros pub.
  assert (H : forall l w0, quiet w0 ->
            quiet (fold_left (fun w' i => deliverTo pub i e w') l w0)
            /\ fileEvents (fold_left (fun w' i => deliverTo pub i e w') l w0)
               = fileEvents w0).
  { induction l as [|i l IH]; intros w0 Hw0; simpl; [auto|].
    destruct (quiet_deliverTo pub i e w0 Hw0) as [H1 H2].
    destruct (IH _ H1) as [H3 H4]. split; [exact H3|congruence]. }
  apply H. exact Hq.
Qed.

Lemma quiet_frame w w' :
  unloading w' = unloading w -> retired w' = retired w -> quiet w -> quiet w'.
Proof. unfold quiet. intros -> ->. auto. Qed.

Lemma publish_events e w :
  exists reactions,
    fileEvents (publish e w) = (fileEvents w ++ e :: reactions)%list
    /\ Forall reaction reactions
    /\ (quiet w -> reactions = []).
Proof.
  destruct (publish_log e w) as (reactions & Hl & HF).
  exists reactions. split; [exact Hl|]. split; [exact HF|].
  intros Hq. destruct (quiet_publish e w Hq) as [_ H].
  rewrite H in Hl. apply app_inv_head in Hl. now inversion Hl.
Qed.

(** *** Publication in a calm service *)

Lemma notify_quietly pub us w :
  Forall (fun u => fires (cachedFiles w) u = false) us ->
  fold_left (fun w' u => notifyUnloader pub None u w') us w
  = logDeliveries (told (cachedFiles w) us) w.
Proof.
  revert w. induction us as [|u us IH]; intros w Hus.
  - destruct w. unfold logDeliveries. simpl. now rewrite app_nil_r.
  - inversion Hus as [|x l Hu Hrest]; subst. simpl.
    assert (Hstep : notifyUnloader pub None u w
                    = logDelivery (fst u) (isSome (JsMap.get (snd u) (cachedFiles w))) w).
    { unfold notifyUnloader. simpl. unfold fires in Hu.
      destruct (JsMap.get (snd u) (cachedFiles w)) as [f|]; [|reflexivity].
      now rewrite Hu. }
    rewrite Hstep, IH; [|exact Hrest].
    unfold logDeliveries, logDelivery. simpl. now rewrite <- app_assoc.
Qed.

(** A publication on which no subscriber of [unloadById] publishes: the
    event is logged and folded, and every subscriber is told whether its id
    is in the new snapshot. *)
Lemma publish_quietly n e w m :
  retired w = [] -> scanError w = None ->
  accumulator (cachedFiles w) e = Ok m ->
  Forall (fun u => fires m u = false) (unloading w) ->
  publishWith (S n) e w
  = mkWorld (fileEvents w ++ [e]) m None (folderId w) (fileManagerAppFile w)
            (remote w) (calls w) (unloading w) []
            (deliveries w ++ told m (unloading w)) (tickets w).
Proof.
  intros Hr Ha Hm Hq. simpl. rewrite Hr. simpl.
  unfold deliverTo. simpl. rewrite Ha, Hm.
  rewrite notify_quietly; [|exact Hq].
  unfold logDeliveries. simpl. now rewrite Hr.
Qed.

Lemma fires_set_other k f m (u : Unloader) :
  snd u <> k -> fires (JsMap.set k f m) u = fires m u.
Proof. intros H. unfold fires. now rewrite get_set_other. Qed.

Lemma fires_delete k m (u : Unloader) :
  fires m u = false -> fires (JsMap.delete k m) u = false.
Proof.
  unfold fires. intros H. destruct (JsId_eqb (snd u) k) eqn:E.
  - apply JsId_eqb_eq in E. rewrite E. now rewrite get_delete_same.
  - apply JsId_eqb_neq in E. now rewrite get_delete_other.
Qed.

Lemma fires_delete_set f m (u : Unloader) :
  fires m u = false -> fires (JsMap.delete (id f) (JsMap.set (id f) f m)) u = false.
Proof.
  unfold fires. intros H. destruct (JsId_eqb (snd u) (id f)) eqn:E.
  - apply JsId_eqb_eq in E. rewrite E. now rewrite get_delete_same.
  - apply JsId_eqb_neq in E. now rewrite get_delete_other, get_set_other.
Qed.

Lemma watching_split k (us : list Unloader) :
  existsb (fun u : Unloader => JsId_eqb (snd u) k) us = true ->
  exists pre t post, us = (pre ++ (t, k) :: post)%list /\ ~ In k (map snd pre).
Proof.
  induction us as [|[t k'] us IH]; simpl; [discriminate|].
  destruct (JsId_eqb k' k) eqn:E; simpl.
  - intros _. apply JsId_eqb_eq in E. subst k'.
    exists [], t, us. split; [reflexivity|]. simpl. tauto.
  - intros H. destruct (IH H) as (pre & t0 & post & Hus & Hpre).
    exists ((t, k') :: pre), t0, post. split; [now rewrite Hus|].
    simpl. apply JsId_eqb_neq in E. intros [H0|H0]; [congruence|tauto].
Qed.

Lemma not_watching k (us : list Unloader) :
  existsb (fun u : Unloader => JsId_eqb (snd u) k) us = false ->
  Forall (fun u : Unloader => snd u <> k) us.
Proof.
  induction us as [|[t k'] us IH]; simpl; [constructor|].
  destruct (JsId_eqb k' k) eqn:E; simpl; [discriminate|].
  intros H. constructor; [now apply JsId_eqb_neq|auto].
Qed.

(** A publication that writes the document [f] under an id that an open
    subscription of [unloadById] looks up: the first such subscriber finds
    the document and publishes its unload, which is folded and delivered to
    everybody before that subscriber is told [true]; the others then find
    nothing.  The snapshot ends without the document. *)
Lemma publish_watched n e f w pre t post :
  retired w = [] -> scanError w = None ->
  accumulator (cachedFiles w) e = Ok (JsMap.set (id f) f (cachedFiles w)) ->
  notNullish (id f) = true ->
  Forall (fun u => fires (cachedFiles w) u = false) (unloading w) ->
  unloading w = (pre ++ (t, id f) :: post)%list -> ~ In (id f) (map snd pre) ->
  publishWith (S (S n)) e w
  = mkWorld (fileEvents w ++ [e; mkEvent "unload" (Some f)])
            (JsMap.delete (id f) (JsMap.set (id f) f (cachedFiles w))) None
            (folderId w) (fileManagerAppFile w) (remote w) (calls w)
            (unloading w) []
            (deliveries w
             ++ told (JsMap.set (id f) f (cachedFiles w)) pre
             ++ told (JsMap.delete (id f) (JsMap.set (id f) f (cachedFiles w)))
                     (unloading w)
             ++ (t, true)
                :: told (JsMap.delete (id f) (JsMap.set (id f) f (cachedFiles w))) post)
            (tickets w).
Proof.
  intros Hr Ha Hacc Hid Hcalm Hus Hpre.
  assert (Hcalm' : Forall (fun u => fires (JsMap.delete (id f)
                     (JsMap.set (id f) f (cachedFiles w))) u = false) (unloading w)).
  { eapply Forall_impl; [|exact Hcalm]. intros u. apply fires_delete_set. }
  remember (S n) as n1 eqn:Hn1.
  simpl. rewrite Hr. simpl. unfold deliverTo. simpl. rewrite Ha, Hacc.
  rewrite Hus at 1. rewrite fold_left_app.
  rewrite (notify_quietly _ pre).
  2:{ simpl. rewrite Hus in Hcalm. apply Forall_app in Hcalm. destruct Hcalm as [Hc _].
      apply Forall_forall. intros u Hu. simpl.
      rewrite fires_set_other.
      - rewrite Forall_forall in Hc. auto.
      - intros E. apply Hpre. rewrite <- E. now apply in_map. }
  simpl fold_left.
  unfold notifyUnloader at 2. simpl.
  rewrite get_set_same, Hid. subst n1.
  rewrite (publish_quietly n _ _ (JsMap.delete (id f) (JsMap.set (id f) f (cachedFiles w))));
    simpl; auto.
  rewrite notify_quietly.
  2:{ simpl. rewrite Hus in Hcalm'. apply Forall_app in Hcalm'.
      destruct Hcalm' as [_ Hc]. now inversion Hc. }
  unfold logDeliveries, logDelivery. simpl.
  f_equal; rewrite <- !app_assoc; reflexivity.
Qed.

(** *** The invariant is kept *)

Lemma Inv_frame P w w' :
  sameBus w w' -> calls w' = calls w -> unloading w' = unloading w ->
  retired w' = retired w -> tickets w' = tickets w -> Inv P w -> Inv P w'.
Proof.
  intros (He & Hc & Hs) Hcalls Hu Hr Ht [H1 H2 H3 H4 H5 [H6 H7] H8].
  constructor; unfold calm; rewrite ?He, ?Hc, ?Hs, ?Hcalls, ?Hu, ?Hr, ?Ht; auto.
Qed.

Lemma Inv_logCall P c w : callOk c -> Inv P w -> Inv P (logCall c w).
Proof.
  intros Hc [H1 H2 H3 H4 H5 H6 H7]. constructor; simpl; auto.
  apply Forall_app. split; auto.
Qed.

Lemma Inv_passive P : passive (Inv P).
Proof.
  unfold passive. split.
  - intros store w. apply Inv_frame; repeat split.
  - intros c w Hc. apply Inv_logCall. destruct c; simpl; auto; discriminate.
Qed.

Lemma Inv_init P store : Inv P (init store).
Proof. constructor; simpl; auto. split; auto. Qed.

Lemma Forall_set (Q : JsId * JsonFile -> Prop) k v m :
  Q (k, v) -> Forall Q m -> Forall Q (JsMap.set k v m).
Proof.
  intros Hv. induction 1 as [|[k' v'] m Hx Hm IH]; simpl.
  - constructor; auto.
  - destruct (JsId_eqb k k'); constructor; auto.
Qed.

Lemma Forall_delete (Q : JsId * JsonFile -> Prop) k m :
  Forall Q m -> Forall Q (JsMap.delete k m).
Proof.
  unfold JsMap.delete. intros H. apply Forall_forall. intros x Hx.
  apply filter_In in Hx. destruct Hx as [Hx _].
  rewrite Forall_forall in H. auto.
Qed.

Lemma carries_accumulator P e m :
  carries P e ->
  exists f, file e = Some f /\ P f
    /\ (accumulator m e = Ok (JsMap.delete (id f) m)
        \/ accumulator m e = Ok (JsMap.set (id f) f m)).
Proof.
  intros [Ha (f & Hf & HP)]. exists f. split; auto. split; auto.
  unfold accumulator. rewrite Hf. unfold isOneOf in Ha. simpl in Ha.
  destruct (action e =? "error"); simpl; auto.
  destruct (action e =? "unload"); simpl; auto.
  destruct (action e =? "load"); simpl; auto.
  destruct (action e =? "save"); simpl; auto. discriminate.
Qed.

Lemma fires_set_quiet f m (u : Unloader) :
  snd u <> id f \/ notNullish (id f) = false ->
  fires m u = false -> fires (JsMap.set (id f) f m) u = false.
Proof.
  intros H Hu. destruct (JsId_eqb (snd u) (id f)) eqn:E.
  - apply JsId_eqb_eq in E. destruct H as [H|H]; [congruence|].
    unfold fires. now rewrite E, get_set_same.
  - apply JsId_eqb_neq in E. now rewrite fires_set_other.
Qed.

(** In a calm service: the publication of an event that removes. *)
Lemma publish_removal n e k w :
  calm w -> scanError w = None ->
  accumulator (cachedFiles w) e = Ok (JsMap.delete k (cachedFiles w)) ->
  publishWith (S n) e w
  = mkWorld (fileEvents w ++ [e]) (JsMap.delete k (cachedFiles w)) None
            (folderId w) (fileManagerAppFile w) (remote w) (calls w)
            (unloading w) []
            (deliveries w ++ told (JsMap.delete k (cachedFiles w)) (unloading w))
            (tickets w).
Proof.
  intros [Hr Hc] Ha Hacc. apply publish_quietly; auto.
  eapply Forall_impl; [|exact Hc]. intros u. apply fires_delete.
Qed.

(** In a calm service: the publication of an event that writes a document
    whose id no open subscription of [unloadById] looks up, or which has no
    id. *)
Lemma publish_upsert n e f w :
  calm w -> scanError w = None ->
  accumulator (cachedFiles w) e = Ok (JsMap.set (id f) f (cachedFiles w)) ->
  watching (id f) w && notNullish (id f) = false ->
  publishWith (S n) e w
  = mkWorld (fileEvents w ++ [e]) (JsMap.set (id f) f (cachedFiles w)) None
            (folderId w) (fileManagerAppFile w) (remote w) (calls w)
            (unloading w) []
            (deliveries w ++ told (JsMap.set (id f) f (cachedFiles w)) (unloading w))
            (tickets w).
Proof.
  intros [Hr Hc] Ha Hacc Hw. apply publish_quietly; auto.
  apply andb_false_iff in Hw. destruct Hw as [Hw|Hw].
  - apply not_watching in Hw. rewrite Forall_forall in *.
    intros u Hu. apply fires_set_quiet; auto.
  - eapply Forall_impl; [|exact Hc]. intros u. apply fires_set_quiet; auto.
Qed.

(** In a calm service: the publication of an event that writes a document
    whose id an open subscription of [unloadById] looks up.  The unload
    follows at once. *)
Lemma publish_upsert_watched n e f w :
  calm w -> scanError w = None ->
  accumulator (cachedFiles w) e = Ok (JsMap.set (id f) f (cachedFiles w)) ->
  watching (id f) w && notNullish (id f) = true ->
  exists ds,
    publishWith (S (S n)) e w
    = mkWorld (fileEvents w ++ [e; mkEvent "unload" (Some f)])
              (JsMap.delete (id f) (JsMap.set (id f) f (cachedFiles w))) None
              (folderId w) (fileManagerAppFile w) (remote w) (calls w)
              (unloading w) [] (deliveries w ++ ds) (tickets w)
    /\ publishWith (S (S n)) e w = publishWith 2 e w.
Proof.
  intros [Hr Hc] Ha Hacc Hw. apply andb_true_iff in Hw. destruct Hw as [Hw Hid].
  destruct (watching_split _ _ Hw) as (pre & t & post & Hus & Hpre).
  eexists. split.
  - apply (publish_watched n e f w pre t post); auto.
  - rewrite (publish_watched n e f w pre t post); auto.
    rewrite (publish_watched 0 e f w pre t post); auto.
Qed.

(** In the worlds that the invariant describes, a publication needs two
    levels and no more. *)
Lemma publish_depth P e w n :
  carries P e -> Inv P w -> publishWith (S (S n)) e w = publishWith 2 e w.
Proof.
  intros He [H1 H2 H3 H4 H5 H6 H7].
  destruct (carries_accumulator P e (cachedFiles w) He) as (f & Hf & HP & [Hacc|Hacc]).
  - rewrite (publish_removal (S n) e (id f) w); auto.
    rewrite (publish_removal 1 e (id f) w); auto.
  - destruct (watching (id f) w && notNullish (id f)) eqn:Hw.
    + destruct (publish_upsert_watched n e f w H6 H1 Hacc Hw) as (ds & _ & Hd).
      exact Hd.
    + rewrite (publish_upsert (S n) e f w); auto.
      rewrite (publish_upsert 1 e f w); auto.
Qed.

Lemma Inv_publish P e w : carries P e -> Inv P w -> Inv P (publish e w).
Proof.
  intros He [H1 H2 H3 H4 H5 H6 H7].
  destruct (carries_accumulator P e (cachedFiles w) He) as (f & Hf & HP & [Hacc|Hacc]).
  - unfold publish, depth. rewrite (publish_removal _ e (id f) w); auto.
    destruct H6 as [Hr Hc].
    constructor; simpl; auto.
    + rewrite cachedFilesAfter_scan in *. rewrite scan_app, H2. simpl.
      now rewrite Hacc.
    + apply Forall_app. split; auto.
    + now apply Forall_delete.
    + split; [reflexivity|]. simpl.
      eapply Forall_impl; [|exact Hc]. intros u. apply fires_delete.
  - destruct (watching (id f) w && notNullish (id f)) eqn:Hw.
    + unfold publish, depth.
      destruct (publish_upsert_watched
                  (List.length (cachedFiles w) + List.length (retired w)
                   + list_sum (map (fun p => List.length (p_cachedFiles p)) (retired w)))
                  e f w H6 H1 Hacc Hw) as (ds & Hp & _).
      rewrite Hp. destruct H6 as [Hr Hc].
      constructor; simpl; auto.
      * rewrite cachedFilesAfter_scan in *. rewrite scan_app, H2. simpl.
        now rewrite Hacc.
      * apply Forall_app. split; auto.
        constructor; [exact He|]. constructor; [|constructor].
        split; simpl; eauto.
      * apply Forall_delete, Forall_set; auto.
      * split; [reflexivity|]. simpl.
        eapply Forall_impl; [|exact Hc]. intros u. apply fires_delete_set.
    + unfold publish, depth. rewrite (publish_upsert _ e f w); auto.
      destruct H6 as [Hr Hc].
      constructor; simpl; auto.
      * rewrite cachedFilesAfter_scan in *. rewrite scan_app, H2. simpl.
        now rewrite Hacc.
      * apply Forall_app. split; auto.
      * apply Forall_set; auto.
      * split; [reflexivity|]. simpl.
        apply andb_false_iff in Hw. destruct Hw as [Hw|Hw].
        -- apply not_watching in Hw. rewrite Forall_forall in *.
           intros u Hu. apply fires_set_quiet; auto.
        -- eapply Forall_impl; [|exact Hc]. intros u. apply fires_set_quiet; auto.
Qed.

Lemma skipn_own {A} (l more : list A) : skipn (List.length l) (l ++ more) = more.
Proof. induction l as [|x l IH]; simpl; auto. Qed.

Lemma told_app m us vs : told m (us ++ vs) = (told m us ++ told m vs)%list.
Proof. unfold told. apply map_app. Qed.

Lemma filter_older t m (us : list Unloader) :
  Forall (fun u : Unloader => fst u < t) us ->
  filter (fun d : nat * bool => Nat.eqb (fst d) t) (told m us) = [].
Proof.
  induction 1 as [|u us Hu _ IH]; simpl; auto.
  destruct (Nat.eqb (fst u) t) eqn:E; auto.
  apply Nat.eqb_eq in E. lia.
Qed.

(** [unloadById] with an id that has a character, on a snapshot in which the
    subscriber does not find a document to unload: one value, and the
    subscription stays. *)
Lemma unloadById_idle docID w :
  lengthBelowOne docID = false -> scanError w = None ->
  fires (cachedFiles w) (tickets w, docID) = false ->
  unloadById docID w
  = (([isSome (JsMap.get docID (cachedFiles w))], Ongoing),
     logDelivery (tickets w) (isSome (JsMap.get docID (cachedFiles w)))
                 (subscribeUnloader docID w)).
Proof.
  intros Hlen Ha Hf. unfold unloadById. rewrite Hlen, (revive_alive w Ha).
  unfold notifyUnloader, fires in *. simpl in *.
  assert (Hw : (match JsMap.get docID (cachedFiles w) with
                | Some f =>
                    if notNullish (id f)
                    then publish (mkEvent "unload" (Some f)) (subscribeUnloader docID w)
                    else subscribeUnloader docID w
                | None => subscribeUnloader docID w
                end) = subscribeUnloader docID w).
  { destruct (JsMap.get docID (cachedFiles w)) as [f|]; [|reflexivity].
    now rewrite Hf. }
  rewrite Hw. f_equal. f_equal.
  unfold receivedSince, logDelivery. simpl. rewrite skipn_own. simpl.
  now rewrite Nat.eqb_refl.
Qed.

(** [unloadById] with the id of a cached document, in a calm service: the
    unload is published, the subscriber receives [false] on the snapshot
    that the unload makes and then [true], and the subscription stays. *)
Lemma unloadById_fires docID f w :
  lengthBelowOne docID = false -> scanError w = None -> calm w ->
  Forall (fun u : Unloader => fst u < tickets w) (unloading w) ->
  JsMap.get docID (cachedFiles w) = Some f -> id f = docID ->
  notNullish docID = true ->
  unloadById docID w
  = (([false; true], Ongoing),
     mkWorld (fileEvents w ++ [mkEvent "unload" (Some f)])
             (JsMap.delete docID (cachedFiles w)) None
             (folderId w) (fileManagerAppFile w) (remote w) (calls w)
             (unloading w ++ [(tickets w, docID)]) []
             (deliveries w ++ told (JsMap.delete docID (cachedFiles w)) (unloading w)
              ++ [(tickets w, false); (tickets w, true)])
             (S (tickets w))).
Proof.
  intros Hlen Ha [Hr Hc] Ht Hget Hid Hn. subst docID. unfold unloadById.
  rewrite Hlen, (revive_alive w Ha).
  unfold notifyUnloader. simpl. rewrite Hget, Hn.
  unfold publish, depth.
  rewrite (publish_quietly _ _ _ (JsMap.delete (id f) (cachedFiles w))); simpl; auto.
  - unfold receivedSince, logDelivery. simpl.
    rewrite told_app. simpl. rewrite get_delete_same. simpl.
    rewrite <- !app_assoc. simpl. rewrite skipn_own.
    rewrite filter_app, filter_older; auto. simpl.
    now rewrite Nat.eqb_refl.
  - apply Forall_app. split.
    + eapply Forall_impl; [|exact Hc]. intros u. apply fires_delete.
    + constructor; [|constructor]. unfold fires. simpl.
      now rewrite get_delete_same.
Qed.

Lemma get_keyed k f m :
  Forall (fun kv => fst kv = id (snd kv)) m ->
  JsMap.get k m = Some f -> id f = k.
Proof.
  induction 1 as [|[k' v] m Hkv _ IH]; simpl; [discriminate|].
  destruct (JsId_eqb k k') eqn:E; auto.
  intros H. inversion H; subst. apply JsId_eqb_eq in E. simpl in Hkv. congruence.
Qed.

Lemma get_Forall (Q : JsId * JsonFile -> Prop) k f m :
  Forall Q m -> JsMap.get k m = Some f -> Q (k, f).
Proof.
  induction 1 as [|[k' v] m Hkv _ IH]; simpl; [discriminate|].
  destruct (JsId_eqb k k') eqn:E; auto.
  intros H. inversion H; subst. apply JsId_eqb_eq in E. now subst.
Qed.

Lemma Inv_unloadById P docID w : Inv P w -> Inv P (snd (unloadById docID w)).
Proof.
  intros Hw. destruct (lengthBelowOne docID) eqn:Hlen.
  { unfold unloadById. rewrite Hlen. exact Hw. }
  destruct Hw as [H1 H2 H3 H4 H5 H6 H7].
  destruct (fires (cachedFiles w) (tickets w, docID)) eqn:Hf.
  - unfold fires in Hf. simpl in Hf.
    destruct (JsMap.get docID (cachedFiles w)) as [f|] eqn:Hget; [|discriminate].
    destruct (get_Forall _ _ _ _ H4 Hget) as [Hk HP]. simpl in Hk, HP.
    rewrite (unloadById_fires docID f w); auto; [|congruence].
    destruct H6 as [Hr Hc]. simpl.
    constructor; simpl; auto.
    + rewrite cachedFilesAfter_scan in *. rewrite scan_app, H2. simpl.
      now rewrite <- Hk.
    + apply Forall_app. split; auto. constructor; [|constructor].
      split; simpl; eauto.
    + now apply Forall_delete.
    + split; [reflexivity|]. simpl. apply Forall_app. split.
      * eapply Forall_impl; [|exact Hc]. intros u. apply fires_delete.
      * constructor; [|constructor]. unfold fires. simpl.
        now rewrite get_delete_same.
    + apply Forall_app. split.
      * eapply Forall_impl; [|exact H7]. simpl. intros; lia.
      * constructor; [simpl; lia|constructor].
  - rewrite (unloadById_idle docID w); auto.
    destruct H6 as [Hr Hc]. simpl.
    constructor; simpl; auto.
    + split; [exact Hr|]. simpl. apply Forall_app. split; auto.
    + apply Forall_app. split.
      * eapply Forall_impl; [|exact H7]. simpl. intros; lia.
      * constructor; [simpl; lia|constructor].
Qed.

Lemma Forall_filter {A} (Q : A -> Prop) (keep : A -> bool) (l : list A) :
  Forall Q l -> Forall Q (filter keep l).
Proof.
  intros H. apply Forall_forall. intros x Hx.
  apply filter_In in Hx. destruct Hx as [Hx _].
  rewrite Forall_forall in H. auto.
Qed.

Lemma Inv_unsubscribe P t w : Inv P w -> Inv P (unsubscribe t w).
Proof.
  intros [H1 H2 H3 H4 H5 [Hr Hc] H7]. constructor; simpl; auto.
  - split; simpl; [now rewrite Hr|]. now apply Forall_filter.
  - now apply Forall_filter.
Qed.

Lemma frame_unsubscribe t w : frame w (unsubscribe t w).
Proof. repeat split. Qed.

Lemma nth_error_Forall {A} (Q : A -> Prop) i x (l : list A) :
  Forall Q l -> nth_error l i = Some x -> Q x.
Proof.
  intros H Hn. rewrite Forall_forall in H. eapply H, nth_error_In, Hn.
Qed.

Lemma arrivals_cons i schedule s :
  arrivals (i :: schedule) s = arrivals schedule (arrival i s).
Proof. reflexivity. Qed.

Section Preservation.

(** A property [K] of the world that the steps of the operations keep:
    the answers of the store, the calls, and the publication of an event
    whose document is in [P], a property of every document that has an id
    and, under [K], of the cached ones. *)
Variable P : JsonFile -> Prop.
Variable K : World -> Prop.
Hypothesis P_of_id : forall f, notNullish (id f) = true -> P f.
Hypothesis K_passive : passive K.
Hypothesis K_upload : forall c w, callOk c -> K w -> K (logCall c w).
Hypothesis K_publish : forall e w, carries P e -> K w -> K (publish e w).
Hypothesis K_revive : forall w, K w -> K (revive w).
Hypothesis K_unloadById : forall docID w, K w -> K (snd (unloadById docID w)).
Hypothesis K_unsubscribe : forall t w, K w -> K (unsubscribe t w).
Hypothesis K_cached : forall w, K w -> Forall P (JsMap.values (cachedFiles w)).
Hypothesis K_appFile : hoare K getFileManagerAppFile (fun _ => K) K.

Lemma carries_intro a f :
  isOneOf a ["load"; "unload"; "save"] = true -> P f -> carries P (mkEvent a (Some f)).
Proof. intros Ha Hf. split; simpl; eauto. Qed.

Lemma keeps_next e : carries P e -> hoare K (next e) (fun _ => K) K.
Proof. intros He w Hw. simpl. now apply K_publish. Qed.

Lemma keeps_loadById docID : hoare K (loadById docID) (fun _ => K) K.
Proof.
  unfold loadById.
  eapply hoare_bind; [apply hoare_getJsonFileFromDrive, K_passive|].
  intros f. eapply hoare_bind with (Q := fun _ => K).
  - intros w [Hw [s Hs]]. simpl. apply K_publish; auto.
    apply carries_intro; auto. apply P_of_id. now rewrite Hs.
  - intros ?. apply hoare_ret_keep.
Qed.

Lemma keeps_unloadFile f : hoare K (unloadFile f) (fun _ => K) K.
Proof.
  unfold unloadFile. destruct f as [f|]; [|apply hoare_ret_keep].
  destruct (notNullish (id f)) eqn:E; [|apply hoare_ret_keep].
  apply keeps_next. apply carries_intro; auto.
Qed.

Lemma keeps_forEachUnload files :
  Forall P files -> hoare K (forEachUnload files) (fun _ => K) K.
Proof.
  induction 1 as [|f files Hf Hfiles IH]; simpl; [apply hoare_ret_keep|].
  eapply hoare_bind; [apply keeps_next, carries_intro; auto|].
  intros ?. exact IH.
Qed.

Lemma keeps_clearAllDocuments : hoare K clearAllDocuments (fun _ => K) K.
Proof.
  unfold clearAllDocuments.
  eapply hoare_bind; [apply hoare_cachedFiles_now, K_revive|].
  intros mapO w [Hw ->].
  apply (keeps_forEachUnload (JsMap.values (cachedFiles w))); auto.
Qed.

Lemma keeps_saveJsonFile f :
  (truthy (getDiffData cls f) = true -> P (updateClone cls f)) ->
  hoare K (saveJsonFile f) (fun _ => K) K.
Proof.
  intros Hf. unfold saveJsonFile.
  destruct (truthy (getDiffData cls f)); simpl; [|apply hoare_ret_keep].
  eapply hoare_bind.
  { apply hoare_request; [apply K_passive|].
    intros w. apply K_upload. simpl. eauto. }
  intros ?.
  eapply hoare_bind; [apply keeps_next, carries_intro; auto|].
  intros ?. apply hoare_ret_keep.
Qed.

Lemma keeps_saveJsonFileMetadata f :
  hoare K (saveJsonFileMetadata f) (fun _ => K) K.
Proof.
  unfold saveJsonFileMetadata.
  eapply hoare_bind.
  { apply hoare_request; [apply K_passive|].
    intros w. apply K_upload. simpl. eauto. }
  intros ?. apply hoare_ret_keep.
Qed.

Lemma keeps_createAndSaveNewJsonFile name content :
  hoare K (createAndSaveNewJsonFile name content) (fun _ => K) K.
Proof.
  unfold createAndSaveNewJsonFile.
  eapply hoare_bind; [apply hoare_getFolderId, K_passive|]. intros folder.
  eapply hoare_bind.
  { apply hoare_request; [apply K_passive|].
    intros w. apply K_upload. simpl. eauto. }
  intros response.
  eapply hoare_bind; [apply keeps_next, carries_intro; auto|].
  intros ?. apply hoare_ret_keep.
Qed.

Lemma keeps_logCalls (files : list FileRef) w :
  K w -> K (fold_left (fun w' f => logCall (CallFilesGet (ref_id f) "*") w') files w).
Proof.
  revert w. induction files as [|f files IH]; simpl; auto.
  intros w Hw. apply IH. apply K_upload; simpl; auto.
Qed.

Lemma keeps_answer {A} (op : R -> Result A * R) w : K w -> K (snd (answer op w)).
Proof. apply hoare_snd, hoare_answer, K_passive. Qed.

Lemma keeps_arrival i m w :
  Forall loadOk (inner m) -> K w ->
  Forall loadOk (inner (fst (arrival i (m, w)))) /\ K (snd (arrival i (m, w))).
Proof.
  intros Hm Hw. unfold arrival.
  destruct (failure m); [auto|].
  destruct (nth_error (inner m) i) as [[docID|docID f|]|] eqn:En; auto.
  - pose proof (keeps_answer (files_get drive docID) w Hw) as Ha.
    destruct (answer (files_get drive docID) w) as [[res|e] w']; simpl in *; auto.
    unfold onMetadata. destruct (negb (canDownload res)); simpl; auto.
    split.
    + apply Forall_replaceNth; simpl; eauto.
    + apply K_upload; simpl; auto.
  - pose proof (keeps_answer (files_get_media drive docID) w Hw) as Ha.
    destruct (answer (files_get_media drive docID) w) as [[resBody|e] w'];
      simpl in *; auto.
    split.
    + apply Forall_replaceNth; simpl; auto.
    + apply K_publish; auto. apply carries_intro; auto.
      apply P_of_id. pose proof (nth_error_Forall _ _ _ _ Hm En) as [s Hs].
      unfold onMedia. destruct (JSON_parse JSON resBody); simpl; now rewrite Hs.
Qed.

Lemma keeps_arrivals schedule m w :
  Forall loadOk (inner m) -> K w -> K (snd (arrivals schedule (m, w))).
Proof.
  revert m w. induction schedule as [|i schedule IH]; intros m w Hm Hw.
  - exact Hw.
  - rewrite arrivals_cons.
    destruct (keeps_arrival i m w Hm Hw) as [Hm' Hw'].
    destruct (arrival i (m, w)) as [m' w']. apply IH; auto.
Qed.

Lemma keeps_loadAllAccessibleFiles schedule w :
  K w -> K (snd (loadAllAccessibleFiles schedule w)).
Proof.
  intros Hw. unfold loadAllAccessibleFiles, getAllAccessibleFiles.
  pose proof (hoare_call K (CallFilesList allFilesQuery)
                (files_list drive allFilesQuery) K_passive eq_refl w Hw) as Hc.
  destruct (call _ _ w) as [[[files|]|e] w']; simpl; auto.
  unfold subscribeLoads.
  pose proof (keeps_arrivals schedule
    (mkMerge (map (fun f => AwaitMetadata (ref_id f)) files) None None)
    (fold_left (fun w' f => logCall (CallFilesGet (ref_id f) "*") w') files w')) as Ha.
  destruct (arrivals schedule _) as [m w'']. simpl in *. apply Ha.
  - apply Forall_map. apply Forall_forall. intros; exact I.
  - apply keeps_logCalls, Hc.
Qed.

Lemma keeps_run op w : opOk P op -> K w -> K (run op w).
Proof.
  intros Hop Hw. destruct op; simpl.
  - apply hoare_snd; auto using keeps_loadById.
  - apply K_unloadById, Hw.
  - apply K_unsubscribe, Hw.
  - apply hoare_snd; auto using keeps_unloadFile.
  - apply hoare_snd; auto using keeps_clearAllDocuments.
  - apply hoare_snd; auto using keeps_saveJsonFile.
  - apply hoare_snd; auto using keeps_saveJsonFileMetadata.
  - apply hoare_snd; auto using keeps_createAndSaveNewJsonFile.
  - apply keeps_loadAllAccessibleFiles, Hw.
  - apply hoare_snd; auto using hoare_getFolderId.
  - apply hoare_snd; auto using hoare_getAppDataByName.
  - apply hoare_snd; auto.
Qed.

Lemma keeps_runAll ops w : Forall (opOk P) ops -> K w -> K (runAll ops w).
Proof.
  intros Hops. revert w. unfold runAll.
  induction Hops as [|op ops Hop _ IH]; simpl; auto using keeps_run.
Qed.

End Preservation.

Lemma Inv_runAll P ops w :
  (forall f, notNullish (id f) = true -> P f) ->
  Forall (opOk P) ops -> Inv P w -> Inv P (runAll ops w).
Proof.
  intros HP. apply (keeps_runAll P (Inv P)); auto.
  - apply Inv_passive.
  - intros c w0. apply Inv_logCall.
  - intros e w0. apply Inv_publish.
  - intros w0 Hw0. now rewrite (revive_alive w0 (inv_alive P w0 Hw0)).
  - intros docID w0. apply Inv_unloadById.
  - intros t w0. apply Inv_unsubscribe.
  - intros w0 Hw0. unfold JsMap.values. apply Forall_map.
    eapply Forall_impl; [|apply (inv_cache P w0 Hw0)]. simpl. tauto.
  - apply hoare_getFileManagerAppFile; [apply Inv_passive|].
    intros f w0. apply Inv_frame; repeat split.
Qed.

Lemma opOk_any ops : Forall (opOk anyFile) ops.
Proof. apply Forall_forall. intros op _. destruct op; simpl; unfold anyFile; auto. Qed.

(** ** The subject, the snapshot and their subscribers *)

Lemma reachable_Inv_any store ops : Inv anyFile (runAll ops (init store)).
Proof.
  apply Inv_runAll; auto using opOk_any, Inv_init. intros; exact I.
Qed.


(** C4.  The snapshot is a function of the sequence of published events, and
    the fold composes: folding a whole sequence from the empty snapshot is
    folding a prefix and then folding the rest from the result of the prefix
    (a throw of the prefix being the result of the whole).  The snapshot the
    service holds after any run is the fold of what it published, so two runs
    that published the same sequence hold the same snapshot. *)
Theorem fold_replay :
  (forall pre suf : list FileAlertEvent,
     cachedFilesAfter (pre ++ suf)
     = andThen (cachedFilesAfter pre) (fun snapshot => scan snapshot suf))
  /\ (forall store ops,
        cachedFilesAfter (fileEvents (runAll ops (init store)))
        = Ok (cachedFiles (runAll ops (init store))))
  /\ (forall store1 ops1 store2 ops2,
        fileEvents (runAll ops1 (init store1)) = fileEvents (runAll ops2 (init store2)) ->
        cachedFiles (runAll ops1 (init store1)) = cachedFiles (runAll ops2 (init store2))).
Proof.
  split; [|split].
  - intros pre suf. rewrite !cachedFilesAfter_scan. apply scan_app.
  - intros store ops. apply (inv_fold anyFile), reachable_Inv_any.
  - intros store1 ops1 store2 ops2 Heq.
    pose proof (inv_fold anyFile _ (reachable_Inv_any store1 ops1)) as H1.
    pose proof (inv_fold anyFile _ (reachable_Inv_any store2 ops2)) as H2.
    rewrite Heq in H1. congruence.
Qed.

(** In every world the service reaches the fold is alive and the entries of
    the snapshot are keyed by the id of their document. *)
Lemma reachable_alive_keyed store ops :
  scanError (runAll ops (init store)) = None
  /\ Forall (fun kv => fst kv = id (snd kv)) (cachedFiles (runAll ops (init store))).
Proof.
  pose proof (reachable_Inv_any store ops) as H. split; [apply (inv_alive _ _ H)|].
  eapply Forall_impl; [|apply (inv_cache _ _ H)]. simpl. tauto.
Qed.





(** ** Queries and uploads *)

Lemma calls_publish e w : calls (publish e w) = calls w.
Proof. apply (frame_publish e w). Qed.


(** C5.  [saveJsonFile(f)] on a document without a diff delivers [f] and
    leaves the world as it was: no call to the store, no event.  With a diff
    it sends one request, the PATCH of [saveRequest]; when the store accepts
    it, it publishes one save event with the clone of the document and
    delivers that clone; when the store rejects it, it publishes nothing and
    fails.  So a call or an event of [saveJsonFile] means there was a diff.
    What the log holds after the save event are unloads that open
    subscriptions of [unloadById] published on seeing the clone: nothing
    when no such subscription is open. *)
Theorem saveJsonFile_only_with_a_diff (f : JsonFile) (w : World) :
  (truthy (getDiffData cls f) = false -> saveJsonFile f w = (Next f, w))
  /\ (truthy (getDiffData cls f) = true ->
        calls (snd (saveJsonFile f w)) = (calls w ++ [CallRequest (saveRequest f)])%list
        /\ method (saveRequest f) = "PATCH"
        /\ (forall res r, request drive (saveRequest f) (remote w) = (Ok res, r) ->
              fst (saveJsonFile f w) = Next (updateClone cls f)
              /\ exists reactions,
                   fileEvents (snd (saveJsonFile f w))
                   = (fileEvents w
                      ++ mkEvent "save" (Some (updateClone cls f)) :: reactions)%list
                   /\ Forall reaction reactions
                   /\ (quiet w -> reactions = []))
        /\ (forall reason r,
              request drive (saveRequest f) (remote w) = (Throw reason, r) ->
              fst (saveJsonFile f w) = Failed (Rejected reason)
              /\ fileEvents (snd (saveJsonFile f w)) = fileEvents w))
  /\ (calls (snd (saveJsonFile f w)) <> calls w
      \/ fileEvents (snd (saveJsonFile f w)) <> fileEvents w ->
      truthy (getDiffData cls f) = true).
Proof.
  unfold saveJsonFile. destruct (truthy (getDiffData cls f)) eqn:Ed; simpl.
  - split; [discriminate|]. split; [|reflexivity]. intros _.
    unfold bind, call, answer, next. simpl.
    destruct (request drive (saveRequest f) (remote w)) as [[res|reason] r] eqn:Er;
      simpl.
    + split; [rewrite calls_publish; reflexivity|]. split; [reflexivity|]. split.
      * intros res0 r0 _. split; [reflexivity|].
        apply (publish_events (mkEvent "save" (Some (updateClone cls f)))
                 (setRemote r (logCall (CallRequest (saveRequest f)) w))).
      * intros reason r0 H. discriminate.
    + split; [reflexivity|]. split; [reflexivity|]. split.
      * intros res r0 H. discriminate.
      * intros reason0 r0 H. inversion H; subst. split; reflexivity.
  - split; [reflexivity|]. split; [discriminate|].
    intros [H|H]; exfalso; apply H; reflexivity.
Qed.




(** ** Discover or create *)

Lemma fileManagerAppFile_publish e w :
  fileManagerAppFile (publish e w) = fileManagerAppFile w.
Proof. apply (frame_publish e w). Qed.

Lemma folderId_publish e w : folderId (publish e w) = folderId w.
Proof. apply (frame_publish e w). Qed.

(** A property of the two fields that the operations on the store fill is
    kept by a step that leaves them alone. *)
Lemma by_frame (Q : JsId -> option JsonFile -> Prop) w w' :
  frame w w' -> Q (folderId w) (fileManagerAppFile w) ->
  Q (folderId w') (fileManagerAppFile w').
Proof. intros (_ & _ & H1 & H2). now rewrite H1, H2. Qed.

Lemma getFileManagerAppFile_cached f w :
  fileManagerAppFile w = Some f -> nonEmptyId f ->
  getFileManagerAppFile w = (Next f, w).
Proof.
  intros Hf (s & Hs & Hlen). unfold getFileManagerAppFile.
  rewrite Hf, Hs, Hlen. reflexivity.
Qed.

Lemma getFileManagerAppFile_stores f w w' :
  getFileManagerAppFile w = (Next f, w') -> fileManagerAppFile w' = Some f.
Proof.
  assert (Hr : resolveFileManagerAppFile w = (Next f, w') ->
               fileManagerAppFile w' = Some f).
  { unfold resolveFileManagerAppFile, bind.
    destruct (getAppDataByName fileManagerAppFileName w) as [[f0|e] w0];
      intros H; inversion H; reflexivity. }
  unfold getFileManagerAppFile.
  destruct (fileManagerAppFile w) as [f0|] eqn:E0; auto.
  destruct (id f0) as [| |s]; try discriminate.
  destruct (0 <? String.length s)%nat; auto.
  intros H. inversion H; subst. exact E0.
Qed.

Lemma appFile_kept f ops w :
  nonEmptyId f -> fileManagerAppFile w = Some f ->
  fileManagerAppFile (runAll ops w) = Some f.
Proof.
  intros Hf.
  apply (keeps_runAll anyFile (fun w0 => fileManagerAppFile w0 = Some f)).
  - intros; exact I.
  - split; intros; assumption.
  - intros; assumption.
  - intros e w0 _ H. now rewrite fileManagerAppFile_publish.
  - intros w0. apply (by_frame (fun _ a => a = Some f)), frame_revive.
  - intros docID w0. apply (by_frame (fun _ a => a = Some f)), frame_unloadById.
  - intros t w0. apply (by_frame (fun _ a => a = Some f)), frame_unsubscribe.
  - intros w0 _. apply Forall_forall. intros; exact I.
  - intros w0 H0. now rewrite (getFileManagerAppFile_cached f w0 H0 Hf).
  - apply opOk_any.
Qed.

Lemma extends_passive before : passive (extends before).
Proof.
  split.
  - intros r w H. exact H.
  - intros c w _ [more H]. exists (more ++ [c])%list. simpl.
    rewrite H. now rewrite app_assoc.
Qed.

Lemma getAppDataByName_asks name w :
  exists more,
    calls (snd (getAppDataByName name w))
    = (calls w ++ CallFilesList (appDataQuery name) :: more)%list.
Proof.
  set (before := (calls w ++ [CallFilesList (appDataQuery name)])%list).
  assert (H : extends before (snd (getAppDataByName name w))).
  { apply (hoare_from (fun w0 => w0 = w)); [|reflexivity].
    unfold getAppDataByName.
    eapply hoare_bind with (Q := fun _ => extends before).
    - intros w0 ->. unfold call.
      apply (hoare_answer (extends before) _ (extends_passive before)).
      exists []. simpl. now rewrite app_nil_r.
    - intros appfiles. eapply hoare_bind with (Q := fun _ => extends before).
      + destruct appfiles as [[|appfile rest]|]; try apply hoare_ret_keep;
          apply hoare_call; auto using extends_passive.
      + intros docID. eapply hoare_weaken;
          [apply (hoare_getJsonFileFromDrive (extends before)), extends_passive
          | | |]; simpl; intuition. }
  destruct H as [more H]. exists more. rewrite H. unfold before.
  now rewrite <- app_assoc.
Qed.

(** C8, as the code has it.  [getFolderId], when no folder id is remembered,
    and [getAppDataByName] ask the store for the folder or the file of the
    given name; when the answer lists one they use the id of the first and
    create nothing, and otherwise they create one and use the id the store
    returns; [getAppDataByName] then fetches the document of that id.
    [getFileManagerAppFile] stores the document it resolved in
    [_fileManagerAppFile]; once that document has an id that is not empty,
    every later [getFileManagerAppFile], whatever ran in between, delivers it
    and leaves the world as it is, the log of calls included.
    [getAppDataByName] itself remembers nothing: each call of it sends its
    query to the store. *)
Theorem discover_or_create (w : World) :
  (noFolderId w ->
   forall found r,
     files_list drive folderQuery (remote w) = (Ok found, r) ->
     match found with
     | Some (folder :: _) =>
         getFolderId w
         = (Next (ref_id folder), setRemote r (logCall (CallFilesList folderQuery) w))
     | _ =>
         forall newId r',
           files_create drive folderMetadata r = (Ok newId, r') ->
           getFolderId w
           = (Next newId,
              setRemote r' (logCall (CallFilesCreate folderMetadata)
                (setRemote r (logCall (CallFilesList folderQuery) w))))
     end)
  /\ (forall name found r,
        files_list drive (appDataQuery name) (remote w) = (Ok found, r) ->
        match found with
        | Some (appfile :: _) =>
            getAppDataByName name w
            = getJsonFileFromDrive (ref_id appfile)
                (setRemote r (logCall (CallFilesList (appDataQuery name)) w))
        | _ =>
            forall newId r',
              files_create drive (appDataMetadata name) r = (Ok newId, r') ->
              getAppDataByName name w
              = getJsonFileFromDrive newId
                  (setRemote r' (logCall (CallFilesCreate (appDataMetadata name))
                     (setRemote r (logCall (CallFilesList (appDataQuery name)) w))))
        end)
  /\ (forall name, exists more,
        calls (snd (getAppDataByName name w))
        = (calls w ++ CallFilesList (appDataQuery name) :: more)%list)
  /\ (forall f w',
        getFileManagerAppFile w = (Next f, w') -> nonEmptyId f ->
        fileManagerAppFile w' = Some f
        /\ forall ops,
             getFileManagerAppFile (runAll ops w') = (Next f, runAll ops w')).
Proof.
  split; [|split; [|split]].
  - intros Hno found r Hl.
    assert (Hg : getFolderId w = discoverFolder w).
    { unfold getFolderId. unfold noFolderId in Hno.
      destruct (folderId w) as [| |s]; auto. now rewrite Hno. }
    rewrite Hg. unfold discoverFolder, bind, call, answer, ret. simpl.
    rewrite Hl. simpl.
    destruct found as [[|folder rest]|]; try reflexivity;
      intros newId r' Hc; simpl; rewrite Hc; reflexivity.
  - intros name found r Hl.
    unfold getAppDataByName, bind, call, answer, ret. simpl.
    rewrite Hl. simpl.
    destruct found as [[|appfile rest]|]; try reflexivity;
      intros newId r' Hc; simpl; rewrite Hc; reflexivity.
  - intros name. apply getAppDataByName_asks.
  - intros f w' Hget Hf.
    pose proof (getFileManagerAppFile_stores f w w' Hget) as Hs.
    split; [exact Hs|]. intros ops.
    apply getFileManagerAppFile_cached; auto using appFile_kept.
Qed.

(** [getFolderId] never writes [_folderId], and no other operation does. *)
Lemma folderId_never_set ops w : folderId (runAll ops w) = folderId w.
Proof.
  apply (keeps_runAll anyFile (fun w0 => folderId w0 = folderId w)).
  - intros; exact I.
  - split; intros; assumption.
  - intros; assumption.
  - intros e w0 _ H. now rewrite folderId_publish.
  - intros w0. apply (by_frame (fun i _ => i = folderId w)), frame_revive.
  - intros docID w0. apply (by_frame (fun i _ => i = folderId w)), frame_unloadById.
  - intros t w0. apply (by_frame (fun i _ => i = folderId w)), frame_unsubscribe.
  - intros w0 _. apply Forall_forall. intros; exact I.
  - apply hoare_getFileManagerAppFile; [split|]; intros; assumption.
  - apply opOk_any.
  - reflexivity.
Qed.

(** ** Loading every accessible document: the first failure *)

Lemma arrival_after_failure i m w e :
  failure m = Some e -> arrival i (m, w) = (m, w).
Proof. intros H. unfold arrival. now rewrite H. Qed.

Lemma arrivals_after_failure schedule m w e :
  failure m = Some e -> arrivals schedule (m, w) = (m, w).
Proof.
  intros H. induction schedule as [|i schedule IH]; [reflexivity|].
  rewrite arrivals_cons, (arrival_after_failure i m w e H). exact IH.
Qed.

Lemma subscribeLoads_world (files : list FileRef) w :
  remote (snd (subscribeLoads files w)) = remote w
  /\ sameBus w (snd (subscribeLoads files w)).
Proof.
  unfold subscribeLoads. simpl. revert w.
  induction files as [|f files IH]; intros w; simpl.
  - split; [reflexivity|apply sameBus_refl].
  - destruct (IH (logCall (CallFilesGet (ref_id f) "*") w)) as [H1 H2].
    split; [exact H1|]. eapply sameBus_trans; [|exact H2]. repeat split.
Qed.

(** Once the metadata of one document say it cannot be downloaded and that
    answer is the first to arrive, [loadAllAccessibleFiles] ends with the
    cannot-download error, whatever arrives later, and no load event is
    published: the loads still in flight are dropped. *)
Lemma loadAll_first_failure schedule i files ref meta r w w1 :
  getAllAccessibleFiles w = (Next (Some files), w1) ->
  nth_error files i = Some ref ->
  files_get drive (ref_id ref) (remote w1) = (Ok meta, r) ->
  canDownload meta = false ->
  fst (loadAllAccessibleFiles (i :: schedule) w) = Errored cannotDownload
  /\ fileEvents (snd (loadAllAccessibleFiles (i :: schedule) w)) = fileEvents w.
Proof.
  intros Hall Hnth Hget Hcan.
  assert (Hbus : sameBus w w1).
  { pose proof (hoare_call (sameBus w) (CallFilesList allFilesQuery)
      (files_list drive allFilesQuery) (onBus_passive _ (sameBus_onBus w))
      eq_refl w (sameBus_refl w)) as H.
    unfold getAllAccessibleFiles in Hall. rewrite Hall in H. exact H. }
  unfold loadAllAccessibleFiles. rewrite Hall. rewrite arrivals_cons.
  destruct (subscribeLoads_world files w1) as [Hrem Hsame].
  destruct (subscribeLoads files w1) as [m0 w2] eqn:Es.
  assert (Hm0 : m0 = mkMerge (map (fun f => AwaitMetadata (ref_id f)) files) None None).
  { unfold subscribeLoads in Es. now inversion Es. }
  simpl in Hrem, Hsame.
  assert (Ha : arrival i (m0, w2)
               = (mkMerge (inner m0) (reduced m0) (Some cannotDownload),
                  setRemote r w2)).
  { unfold arrival. subst m0. simpl.
    rewrite (map_nth_error (fun f => AwaitMetadata (ref_id f)) _ _ Hnth).
    unfold answer. rewrite Hrem, Hget. simpl.
    unfold onMetadata. rewrite Hcan. reflexivity. }
  rewrite Ha.
  rewrite (arrivals_after_failure schedule
             (mkMerge (inner m0) (reduced m0) (Some cannotDownload))
             (setRemote r w2) cannotDownload eq_refl).
  split; [reflexivity|]. simpl.
  destruct Hbus as [Hb _]. destruct Hsame as [Hs _]. congruence.
Qed.

(** ** More on the fold *)

Lemma set_set_same k v v' m : JsMap.set k v (JsMap.set k v' m) = JsMap.set k v m.
Proof.
  induction m as [|[k' v0] m IH]; simpl.
  - now rewrite JsId_eqb_refl.
  - destruct (JsId_eqb k k') eqn:E; simpl.
    + now rewrite JsId_eqb_refl.
    + now rewrite E, IH.
Qed.

Lemma delete_delete k m : JsMap.delete k (JsMap.delete k m) = JsMap.delete k m.
Proof.
  unfold JsMap.delete. induction m as [|[k' v] m IH]; simpl; auto.
  destruct (JsId_eqb k k') eqn:E; simpl; auto. now rewrite E, IH.
Qed.

Lemma delete_notin k m : ~ In k (JsMap.keys m) -> JsMap.delete k m = m.
Proof.
  unfold JsMap.delete, JsMap.keys.
  induction m as [|[k' v] m IH]; simpl; auto.
  intros H. destruct (JsId_eqb k k') eqn:E; simpl.
  - apply JsId_eqb_eq in E. subst. tauto.
  - rewrite IH; tauto.
Qed.

Lemma get_notin k m : JsMap.get k m = None <-> ~ In k (JsMap.keys m).
Proof.
  unfold JsMap.keys. induction m as [|[k' v] m IH]; simpl; [tauto|].
  destruct (JsId_eqb k k') eqn:E.
  - apply JsId_eqb_eq in E. subst. split; [discriminate|tauto].
  - apply JsId_eqb_neq in E. rewrite IH. split; [|tauto].
    intros H [H1|H1]; [congruence|tauto].
Qed.

Lemma delete_set_absent k v m :
  JsMap.get k m = None -> JsMap.delete k (JsMap.set k v m) = m.
Proof.
  unfold JsMap.delete. induction m as [|[k' v'] m IH]; simpl.
  - now rewrite JsId_eqb_refl.
  - destruct (JsId_eqb k k') eqn:E; [discriminate|]. simpl.
    intros H. now rewrite E, IH.
Qed.

Lemma keys_set k v m :
  JsMap.keys (JsMap.set k v m)
  = if isSome (JsMap.get k m) then JsMap.keys m else (JsMap.keys m ++ [k])%list.
Proof.
  unfold JsMap.keys. induction m as [|[k' v'] m IH]; simpl; auto.
  destruct (JsId_eqb k k') eqn:E; simpl.
  - apply JsId_eqb_eq in E. now subst.
  - rewrite IH. now destruct (isSome (JsMap.get k m)).
Qed.

Lemma keys_delete_incl k m x :
  In x (JsMap.keys (JsMap.delete k m)) -> In x (JsMap.keys m).
Proof.
  unfold JsMap.keys, JsMap.delete. rewrite !in_map_iff.
  intros (kv & Hkv & Hin). apply filter_In in Hin. exists kv. tauto.
Qed.

Lemma NoDup_set k v m : NoDup (JsMap.keys m) -> NoDup (JsMap.keys (JsMap.set k v m)).
Proof.
  intros H. rewrite keys_set. destruct (JsMap.get k m) eqn:E; simpl; auto.
  apply get_notin in E. apply NoDup_app; auto.
  - repeat constructor. simpl. tauto.
  - intros x Hx [Hk|[]]. subst. tauto.
Qed.

Lemma NoDup_delete k m : NoDup (JsMap.keys m) -> NoDup (JsMap.keys (JsMap.delete k m)).
Proof.
  unfold JsMap.keys, JsMap.delete.
  induction m as [|[k' v] m IH]; simpl; auto.
  intros H. inversion H as [|x l Hx Hl]; subst.
  destruct (JsId_eqb k k'); simpl; auto.
  constructor; auto. intros Hin. apply Hx.
  apply (keys_delete_incl k m k' Hin).
Qed.

Lemma get_In k f m : NoDup (JsMap.keys m) -> (JsMap.get k m = Some f <-> In (k, f) m).
Proof.
  unfold JsMap.keys. induction m as [|[k' v] m IH]; simpl.
  - split; [discriminate|tauto].
  - intros H. inversion H as [|x l Hx Hl]; subst.
    destruct (JsId_eqb k k') eqn:E.
    + apply JsId_eqb_eq in E. subst k'. split.
      * intros H0. inversion H0. auto.
      * intros [H0|H0]; [congruence|].
        exfalso. apply Hx. apply in_map_iff. exists (k, f). auto.
    + apply JsId_eqb_neq in E. rewrite (IH Hl). split; [tauto|].
      intros [H0|H0]; [congruence|exact H0].
Qed.

Lemma throwsOn_spec m e :
  (throwsOn e = true ->
   accumulator m e = Throw ("Unrecognised FileAlertEvent: " ++ action e))
  /\ (throwsOn e = false -> exists m', accumulator m e = Ok m').
Proof.
  unfold throwsOn, recognised, isOneOf, accumulator. simpl.
  destruct (file e) as [f|]; simpl; [|split; [discriminate|eauto]].
  destruct (action e =? "error"), (action e =? "unload"), (action e =? "load"),
    (action e =? "save"), (action e =? "update"); simpl;
    split; try discriminate; eauto.
Qed.

Lemma accumulator_other k m e m' :
  accumulator m e = Ok m' -> aboutId k e = false -> JsMap.get k m' = JsMap.get k m.
Proof.
  unfold accumulator, aboutId. destruct (file e) as [f|].
  - intros H Hk. apply JsId_eqb_neq in Hk.
    destruct (_ || _).
    + inversion H. apply get_delete_other. congruence.
    + destruct (_ || _); inversion H. apply get_set_other. congruence.
  - intros H _. now inversion H.
Qed.

Lemma accumulator_same k m e m1 m' :
  accumulator m e = Ok m1 -> aboutId k e = true ->
  exists m2, accumulator m' e = Ok m2 /\ JsMap.get k m2 = JsMap.get k m1.
Proof.
  unfold accumulator, aboutId. destruct (file e) as [f|]; [|discriminate].
  intros H Hk. apply JsId_eqb_eq in Hk. subst k.
  destruct (_ || _).
  - inversion H. eexists. split; [reflexivity|]. now rewrite !get_delete_same.
  - destruct (_ || _); inversion H.
    eexists. split; [reflexivity|]. now rewrite !get_set_same.
Qed.

(** X1.  Delivering an event twice in a row folds like delivering it once,
    whatever the snapshot and the event: an upsert overwrites itself, a
    removal finds nothing left, and a throw is the same throw. *)
Theorem scan_twice_is_once (m : JsMap.t) (e : FileAlertEvent) :
  scan m [e; e] = scan m [e].
Proof.
  simpl. unfold accumulator. destruct (file e) as [f|]; [|reflexivity].
  destruct (_ || _).
  - now rewrite delete_delete.
  - destruct (_ || _); [|reflexivity]. now rewrite set_set_same.
Qed.

(** X2.  On a snapshot without the document, an upsert (load, save or
    update) followed by a removal (unload or error) of the same document
    gives back the snapshot itself, order of the other entries included. *)
Theorem upsert_then_remove (m : JsMap.t) (f : JsonFile) (a b : FileAlertAction) :
  JsMap.get (id f) m = None ->
  upserts a = true -> removes b = true ->
  scan m [mkEvent a (Some f); mkEvent b (Some f)] = Ok m.
Proof.
  unfold upserts, removes, isOneOf. simpl. intros Hget Ha Hb.
  assert (Ha' : (a =? "error") || (a =? "unload") = false).
  { destruct (a =? "error") eqn:E1; [apply String.eqb_eq in E1; subst; discriminate|].
    destruct (a =? "unload") eqn:E2; [apply String.eqb_eq in E2; subst; discriminate|].
    reflexivity. }
  assert (Ha2 : (a =? "load") || (a =? "save") || (a =? "update") = true).
  { rewrite <- orb_assoc. rewrite orb_false_r in Ha. exact Ha. }
  assert (Hb' : (b =? "error") || (b =? "unload") = true).
  { rewrite orb_false_r in Hb. rewrite orb_comm. exact Hb. }
  unfold accumulator. simpl. rewrite Ha', Ha2. simpl. rewrite Hb'.
  now rewrite delete_set_absent.
Qed.

(** X3.  When the fold of a run of events succeeds, the entry it leaves for
    an id is the entry left by folding only the events whose document has
    that id: the events of other documents, and the events without a
    document, do not touch it. *)
Theorem entry_depends_on_its_events (k : JsId) (m m1 : JsMap.t)
  (events : list FileAlertEvent) :
  scan m events = Ok m1 ->
  exists m2, scan m (filter (aboutId k) events) = Ok m2
             /\ JsMap.get k m2 = JsMap.get k m1.
Proof.
  assert (H : forall events m m' m1,
            JsMap.get k m' = JsMap.get k m -> scan m events = Ok m1 ->
            exists m2, scan m' (filter (aboutId k) events) = Ok m2
                       /\ JsMap.get k m2 = JsMap.get k m1).
  { clear. induction events as [|e events IH]; intros m m' m1 Hk; simpl.
    - intros H. inversion H; subst. eauto.
    - destruct (accumulator m e) as [ma|msg] eqn:Ea; [|discriminate].
      intros Hs. destruct (aboutId k e) eqn:Ek; simpl.
      + destruct (accumulator_same k m e ma m' Ea Ek) as (mb & Eb & Hb).
        rewrite Eb. apply (IH ma mb m1); auto.
      + apply (IH ma m' m1); auto.
        rewrite (accumulator_other k m e ma Ea Ek). exact Hk. }
  intros Hs. apply (H events m m m1); auto.
Qed.

(** X4.  The fold of a run of events throws exactly when the run has an
    event with a document and an action that is none of the five, and the
    message names the action of the first such event; an unknown action on
    an event without a document is passed over. *)
Theorem scan_throws_on_first_unknown (m : JsMap.t) (events : list FileAlertEvent) :
  match find throwsOn events with
  | Some e => scan m events = Throw ("Unrecognised FileAlertEvent: " ++ action e)
  | None => exists m', scan m events = Ok m'
  end.
Proof.
  revert m. induction events as [|e events IH]; intros m; simpl; eauto.
  destruct (throwsOn_spec m e) as [Ht Hf].
  destruct (throwsOn e) eqn:E.
  - now rewrite Ht.
  - destruct (Hf eq_refl) as [m' Hm']. rewrite Hm'. apply IH.
Qed.

Lemma accumulator_unique_keys m e m' :
  accumulator m e = Ok m' ->
  NoDup (JsMap.keys m) /\ Forall (fun kv => fst kv = id (snd kv)) m ->
  NoDup (JsMap.keys m') /\ Forall (fun kv => fst kv = id (snd kv)) m'.
Proof.
  unfold accumulator. destruct (file e) as [f|].
  - destruct (_ || _).
    + intros H [H1 H2]. inversion H. split; [now apply NoDup_delete|].
      now apply Forall_delete.
    + destruct (_ || _); [|discriminate].
      intros H [H1 H2]. inversion H. split; [now apply NoDup_set|].
      apply Forall_set; auto.
  - intros H. now inversion H.
Qed.

(** X5.  A snapshot folded from the empty one has one entry per id: its
    keys are pairwise different, each entry is keyed by the id of its
    document, and looking an id up finds exactly the entry listed for it. *)
Theorem snapshot_has_one_entry_per_id (events : list FileAlertEvent) (m : JsMap.t) :
  cachedFilesAfter events = Ok m ->
  NoDup (JsMap.keys m)
  /\ Forall (fun kv => fst kv = id (snd kv)) m
  /\ (forall k f, JsMap.get k m = Some f <-> In (k, f) m).
Proof.
  rewrite cachedFilesAfter_scan.
  assert (H : forall events m0 m,
            scan m0 events = Ok m ->
            NoDup (JsMap.keys m0) /\ Forall (fun kv => fst kv = id (snd kv)) m0 ->
            NoDup (JsMap.keys m) /\ Forall (fun kv => fst kv = id (snd kv)) m).
  { clear. induction events as [|e events IH]; intros m0 m; simpl.
    - intros H. now inversion H.
    - destruct (accumulator m0 e) as [ma|msg] eqn:Ea; [|discriminate].
      intros Hs H0. apply (IH ma m Hs).
      apply (accumulator_unique_keys m0 e ma Ea H0). }
  intros Hs. destruct (H events JsMap.empty m Hs) as [H1 H2].
  { split; constructor. }
  split; [exact H1|]. split; [exact H2|]. intros k f. now apply get_In.
Qed.

(** X6.  What [listenDocuments] lists after an upsert: a document whose id
    was not cached is appended at the end; a document whose id was cached
    takes the place of the old one, the ids staying in the same order. *)
Theorem listenDocuments_after_upsert (m m' : JsMap.t) (f : JsonFile)
  (a : FileAlertAction) :
  upserts a = true ->
  accumulator m (mkEvent a (Some f)) = Ok m' ->
  (JsMap.get (id f) m = None ->
     listenDocuments m' = (listenDocuments m ++ [f])%list)
  /\ (forall old, JsMap.get (id f) m = Some old ->
        JsMap.keys m' = JsMap.keys m
        /\ List.length (listenDocuments m') = List.length (listenDocuments m))
  /\ JsMap.get (id f) m' = Some f.
Proof.
  unfold upserts, isOneOf. simpl. intros Ha.
  assert (Ha' : (a =? "error") || (a =? "unload") = false).
  { destruct (a =? "error") eqn:E1; [apply String.eqb_eq in E1; subst; discriminate|].
    destruct (a =? "unload") eqn:E2; [apply String.eqb_eq in E2; subst; discriminate|].
    reflexivity. }
  assert (Ha2 : (a =? "load") || (a =? "save") || (a =? "update") = true).
  { rewrite <- orb_assoc. rewrite orb_false_r in Ha. exact Ha. }
  unfold accumulator. simpl. rewrite Ha', Ha2. intros H. inversion H; subst m'.
  split; [|split].
  - intros Hget. unfold listenDocuments, JsMap.values. clear -Hget.
    induction m as [|[k v] m IH]; simpl in *; auto.
    destruct (JsId_eqb (id f) k); [discriminate|]. simpl. now rewrite IH.
  - intros old Hget. split.
    + rewrite keys_set, Hget. reflexivity.
    + unfold listenDocuments, JsMap.values. rewrite !length_map.
      rewrite <- (length_map fst (JsMap.set (id f) f m)), <- (length_map fst m).
      change (List.length (JsMap.keys (JsMap.set (id f) f m))
              = List.length (JsMap.keys m)).
      now rewrite keys_set, Hget.
  - apply get_set_same.
Qed.

(** ** More on load, unload and clear *)

Lemma scan_unique_keys events m0 m :
  scan m0 events = Ok m ->
  NoDup (JsMap.keys m0) /\ Forall (fun kv => fst kv = id (snd kv)) m0 ->
  NoDup (JsMap.keys m) /\ Forall (fun kv => fst kv = id (snd kv)) m.
Proof.
  revert m0 m. induction events as [|e events IH]; intros m0 m; simpl.
  - intros H. now inversion H.
  - destruct (accumulator m0 e) as [ma|msg] eqn:Ea; [|discriminate].
    intros Hs H0. apply (IH ma m Hs).
    apply (accumulator_unique_keys m0 e ma Ea H0).
Qed.

(** A world whose fold is alive and whose snapshot has one entry per id. *)
Lemma reachable_snapshot store ops :
  scanError (runAll ops (init store)) = None
  /\ NoDup (JsMap.keys (cachedFiles (runAll ops (init store))))
  /\ Forall (fun kv => fst kv = id (snd kv)) (cachedFiles (runAll ops (init store))).
Proof.
  pose proof (reachable_Inv_any store ops) as H.
  split; [apply (inv_alive _ _ H)|].
  apply (scan_unique_keys (fileEvents (runAll ops (init store))) JsMap.empty).
  - rewrite <- cachedFilesAfter_scan. apply (inv_fold _ _ H).
  - split; constructor.
Qed.

Lemma watched_absent k w :
  calm w -> Forall (fun kv => fst kv = id (snd kv)) (cachedFiles w) ->
  watching k w = true -> notNullish k = true ->
  JsMap.get k (cachedFiles w) = None.
Proof.
  intros [_ Hc] Hk Hw Hn.
  destruct (watching_split _ _ Hw) as (pre & t & post & Hus & _).
  rewrite Hus in Hc. apply Forall_app in Hc. destruct Hc as [_ Hc].
  inversion Hc as [|u us Hu _]; subst. unfold fires in Hu. simpl in Hu.
  destruct (JsMap.get k (cachedFiles w)) as [f|] eqn:Hget; [|reflexivity].
  rewrite (get_keyed _ _ _ Hk Hget) in Hu. congruence.
Qed.

(** What the publication of an unload does in a calm service. *)
Lemma publish_unload f w :
  calm w -> scanError w = None ->
  fileEvents (publish (mkEvent "unload" (Some f)) w)
  = (fileEvents w ++ [mkEvent "unload" (Some f)])%list
  /\ cachedFiles (publish (mkEvent "unload" (Some f)) w)
     = JsMap.delete (id f) (cachedFiles w)
  /\ scanError (publish (mkEvent "unload" (Some f)) w) = None
  /\ calm (publish (mkEvent "unload" (Some f)) w)
  /\ unloading (publish (mkEvent "unload" (Some f)) w) = unloading w
  /\ tickets (publish (mkEvent "unload" (Some f)) w) = tickets w.
Proof.
  intros Hc Ha. unfold publish, depth.
  rewrite (publish_removal _ _ (id f) w); auto. simpl.
  repeat split; auto. simpl. destruct Hc as [_ Hc].
  eapply Forall_impl; [|exact Hc]. intros u. apply fires_delete.
Qed.

(** What the publication of an event that writes [f] does in a calm service
    whose snapshot is keyed by id. *)
Lemma publish_upsert_effect e f w :
  calm w -> scanError w = None ->
  Forall (fun kv => fst kv = id (snd kv)) (cachedFiles w) ->
  accumulator (cachedFiles w) e = Ok (JsMap.set (id f) f (cachedFiles w)) ->
  scanError (publish e w) = None
  /\ unloading (publish e w) = unloading w
  /\ tickets (publish e w) = tickets w
  /\ (forall k, k <> id f ->
        JsMap.get k (cachedFiles (publish e w)) = JsMap.get k (cachedFiles w))
  /\ if watching (id f) w && notNullish (id f)
     then fileEvents (publish e w)
          = (fileEvents w ++ [e; mkEvent "unload" (Some f)])%list
          /\ JsMap.get (id f) (cachedFiles (publish e w)) = None
          /\ cachedFiles (publish e w) = cachedFiles w
     else fileEvents (publish e w) = (fileEvents w ++ [e])%list
          /\ cachedFiles (publish e w) = JsMap.set (id f) f (cachedFiles w).
Proof.
  intros Hc Ha Hk Hacc. unfold publish, depth.
  destruct (watching (id f) w && notNullish (id f)) eqn:Hw.
  - destruct (publish_upsert_watched
                (List.length (cachedFiles w) + List.length (retired w)
                 + list_sum (map (fun p => List.length (p_cachedFiles p)) (retired w)))
                e f w Hc Ha Hacc Hw) as (ds & Hp & _).
    rewrite Hp. simpl. apply andb_true_iff in Hw. destruct Hw as [Hw Hn].
    repeat split; auto.
    + intros k Hne. now rewrite get_delete_other, get_set_other.
    + apply get_delete_same.
    + apply delete_set_absent. now apply watched_absent.
  - rewrite (publish_upsert _ e f w); auto. simpl.
    repeat split; auto. intros k Hne. now apply get_set_other.
Qed.

Lemma forEachUnload_clears l :
  forall w,
    scanError w = None -> calm w -> cachedFiles w = l ->
    NoDup (JsMap.keys l) -> Forall (fun kv => fst kv = id (snd kv)) l ->
    exists w',
      forEachUnload (JsMap.values l) w = (Next tt, w')
      /\ cachedFiles w' = JsMap.empty /\ scanError w' = None
      /\ fileEvents w' = (fileEvents w ++ map unloadOf (JsMap.values l))%list
      /\ calls w' = calls w.
Proof.
  induction l as [|[k f] l IH]; intros w Ha Hcalm Hc Hn Hk.
  - exists w. simpl. rewrite app_nil_r. auto.
  - inversion Hn as [|x xs Hx Hxs]; subst x xs.
    inversion Hk as [|x xs Hkf Hkl]; subst x xs. simpl in Hkf. subst k.
    destruct (publish_unload f w Hcalm Ha) as (P1 & P2 & P3 & P4 & _).
    assert (Hl : cachedFiles (publish (unloadOf f) w) = l).
    { unfold unloadOf. rewrite P2, Hc. unfold JsMap.delete. simpl.
      rewrite JsId_eqb_refl. simpl.
      apply (delete_notin (id f) l Hx). }
    destruct (IH (publish (unloadOf f) w)) as (w' & H1 & H2 & H3 & H4 & H5); auto.
    exists w'. simpl. unfold bind, next.
    change (mkEvent "unload" (Some f)) with (unloadOf f).
    rewrite H1. repeat split; auto.
    + rewrite H4. unfold unloadOf at 1. rewrite P1, <- app_assoc. reflexivity.
    + rewrite H5. apply calls_publish.
Qed.

(** X7.  In every world the service reaches, [clearAllDocuments] publishes
    one unload event per cached document, in the order [listenDocuments]
    lists them, and nothing else; afterwards the snapshot is empty, and no
    call went to the store. *)
Theorem clearAllDocuments_unloads_each_once (store : R) (ops : list Op) :
  exists w',
    clearAllDocuments (runAll ops (init store)) = (Next tt, w')
    /\ cachedFiles w' = JsMap.empty
    /\ fileEvents w'
       = (fileEvents (runAll ops (init store))
          ++ map unloadOf (listenDocuments (cachedFiles (runAll ops (init store)))))%list
    /\ calls w' = calls (runAll ops (init store)).
Proof.
  destruct (reachable_snapshot store ops) as (Ha & Hn & Hk).
  pose proof (inv_calm _ _ (reachable_Inv_any store ops)) as Hcalm.
  destruct (forEachUnload_clears _ _ Ha Hcalm eq_refl Hn Hk)
    as (w' & H1 & H2 & _ & H4 & H5).
  exists w'. unfold clearAllDocuments, bind, cachedFiles_now.
  rewrite (revive_alive _ Ha). repeat split; auto.
Qed.

Lemma getJsonFileFromDrive_sameBus docID w :
  sameBus w (snd (getJsonFileFromDrive docID w)).
Proof.
  pose proof (hoare_getJsonFileFromDrive (sameBus w) docID
                (onBus_passive _ (sameBus_onBus w)) w (sameBus_refl w)) as H.
  destruct (getJsonFileFromDrive docID w) as [[f|e] w']; simpl; tauto.
Qed.

Lemma getJsonFileFromDrive_passive (I : World -> Prop) docID w :
  passive I -> I w -> I (snd (getJsonFileFromDrive docID w)).
Proof.
  intros HI Hw. pose proof (hoare_getJsonFileFromDrive I docID HI w Hw) as H.
  destruct (getJsonFileFromDrive docID w) as [[f|e] w']; simpl; tauto.
Qed.

(** The fetch leaves the subscriptions of [unloadById] as they are. *)
Lemma getJsonFileFromDrive_subscribers docID w :
  unloading (snd (getJsonFileFromDrive docID w)) = unloading w
  /\ tickets (snd (getJsonFileFromDrive docID w)) = tickets w.
Proof.
  apply (getJsonFileFromDrive_passive
           (fun w' => unloading w' = unloading w /\ tickets w' = tickets w)).
  - split; intros; assumption.
  - split; reflexivity.
Qed.

Lemma getJsonFileFromDrive_id docID w f w1 :
  getJsonFileFromDrive docID w = (Next f, w1) -> exists s, id f = IdStr s.
Proof.
  intros H.
  pose proof (hoare_getJsonFileFromDrive (fun _ => True) docID) as Hh.
  assert (Hp : passive (fun _ : World => True)) by (split; auto).
  specialize (Hh Hp w I). rewrite H in Hh. tauto.
Qed.

(** X8.  [loadById] in a world the service reaches: when the fetch delivers
    a document, true is delivered and one load event with that document is
    published after the events so far.  When no open subscription of
    [unloadById] looks up the id the store reported (not the id that was
    asked for), the snapshot then maps that id to the document.  When one
    does, the unload of the document follows the load at once, the snapshot
    has no entry for the id and is the one from before.  In both cases the
    other entries are kept.  When the fetch fails, [loadById] fails the same
    way and neither the subject nor the snapshot changes. *)
Theorem loadById_publishes_what_it_fetched (store : R) (ops : list Op)
  (docID : string) :
  match getJsonFileFromDrive docID (runAll ops (init store)) with
  | (Next f, w1) =>
      loadById docID (runAll ops (init store)) = (Next true, publish (loadOf f) w1)
      /\ (forall k, k <> id f ->
            JsMap.get k (cachedFiles (publish (loadOf f) w1))
            = JsMap.get k (cachedFiles (runAll ops (init store))))
      /\ if watching (id f) (runAll ops (init store))
         then fileEvents (publish (loadOf f) w1)
              = (fileEvents (runAll ops (init store)) ++ [loadOf f; unloadOf f])%list
              /\ JsMap.get (id f) (cachedFiles (publish (loadOf f) w1)) = None
              /\ cachedFiles (publish (loadOf f) w1)
                 = cachedFiles (runAll ops (init store))
         else fileEvents (publish (loadOf f) w1)
              = (fileEvents (runAll ops (init store)) ++ [loadOf f])%list
              /\ JsMap.get (id f) (cachedFiles (publish (loadOf f) w1)) = Some f
  | (Failed e, w1) =>
      loadById docID (runAll ops (init store)) = (Failed e, w1)
      /\ sameBus (runAll ops (init store)) w1
  end.
Proof.
  pose proof (reachable_Inv_any store ops) as Hinv.
  pose proof (getJsonFileFromDrive_sameBus docID (runAll ops (init store))) as Hb.
  pose proof (getJsonFileFromDrive_subscribers docID (runAll ops (init store))) as Hu.
  pose proof (getJsonFileFromDrive_passive _ docID _ (Inv_passive anyFile) Hinv) as H1.
  pose proof (getJsonFileFromDrive_id docID (runAll ops (init store))) as Hid.
  unfold loadById, bind.
  destruct (getJsonFileFromDrive docID (runAll ops (init store))) as [[f|e] w1];
    simpl in *; [|auto].
  destruct (Hid f w1 eq_refl) as [s Hs].
  destruct Hb as (He & Hc & Hsc). destruct Hu as [Hu _].
  destruct H1 as [A1 A2 A3 A4 A5 A6 A7].
  assert (Hk : Forall (fun kv => fst kv = id (snd kv)) (cachedFiles w1)).
  { eapply Forall_impl; [|exact A4]. simpl. tauto. }
  destruct (publish_upsert_effect (loadOf f) f w1 A6 A1 Hk eq_refl)
    as (_ & _ & _ & Hother & Hcase).
  split; [reflexivity|]. split.
  - intros k Hne. rewrite Hother; auto. now rewrite Hc.
  - replace (watching (id f) w1) with (watching (id f) (runAll ops (init store)))
      in Hcase by (unfold watching; now rewrite Hu).
    rewrite Hs in *. simpl in Hcase. rewrite andb_true_r in Hcase.
    destruct (watching (IdStr s) (runAll ops (init store))).
    + destruct Hcase as (C1 & C2 & C3).
      split; [now rewrite C1, He|]. split; [exact C2|now rewrite C3].
    + destruct Hcase as (C1 & C2). rewrite C1, C2, He. split; auto.
      apply get_set_same.
Qed.

Lemma watching_last k (us : list Unloader) t :
  existsb (fun u : Unloader => JsId_eqb (snd u) k) (us ++ [(t, k)]) = true.
Proof.
  rewrite existsb_app. apply orb_true_iff. right. simpl.
  rewrite orb_false_r. apply JsId_eqb_refl.
Qed.

Lemma lengthBelowOne_string s : s <> EmptyString -> lengthBelowOne (IdStr s) = false.
Proof. destruct s; [congruence|reflexivity]. Qed.

(** [unloadById] of an id the snapshot does not have, the fold being alive:
    false is delivered, and neither the subject nor the snapshot changes. *)
Lemma unloadById_absent w docID :
  scanError w = None -> JsMap.get docID (cachedFiles w) = None ->
  unloadById docID w
  = if lengthBelowOne docID then (([false], Ended), w)
    else (([false], Ongoing),
          logDelivery (tickets w) false (subscribeUnloader docID w)).
Proof.
  intros Ha Hget. destruct (lengthBelowOne docID) eqn:Hlen.
  - unfold unloadById. now rewrite Hlen.
  - rewrite (unloadById_idle docID w Hlen Ha).
    + now rewrite Hget.
    + unfold fires. simpl. now rewrite Hget.
Qed.

(** C3.  [unloadById(docID)] in a world the service reaches.  For a string
    id with characters that the snapshot has, the unload of the cached
    document is published, and the subscriber receives false and then true:
    it is on [_cachedFiles$] when [tap] publishes, so the snapshot without
    the document reaches it before the value of the replay does.  The
    stream does not complete: the subscription stays, and when a document
    of that id is loaded afterwards its unload follows at once.  For an id
    that the snapshot does not have, false is delivered and nothing is
    published; for the empty string the stream delivers false and
    completes, and the world is as before.  For [null] or [undefined],
    when the snapshot holds a document under that key (one that was saved
    without an id), true is delivered and nothing is published. *)
Theorem unloadById_delivers_false_then_true (store : R) (ops : list Op) :
  (forall s f,
     s <> EmptyString ->
     JsMap.get (IdStr s) (cachedFiles (runAll ops (init store))) = Some f ->
     fst (unloadById (IdStr s) (runAll ops (init store))) = ([false; true], Ongoing)
     /\ fileEvents (snd (unloadById (IdStr s) (runAll ops (init store))))
        = (fileEvents (runAll ops (init store)) ++ [unloadOf f])%list
     /\ JsMap.get (IdStr s)
          (cachedFiles (snd (unloadById (IdStr s) (runAll ops (init store))))) = None
     /\ watching (IdStr s) (snd (unloadById (IdStr s) (runAll ops (init store)))) = true
     /\ forall docID g w1,
          getJsonFileFromDrive docID
            (snd (unloadById (IdStr s) (runAll ops (init store)))) = (Next g, w1) ->
          id g = IdStr s ->
          fileEvents (snd (loadById docID
                       (snd (unloadById (IdStr s) (runAll ops (init store))))))
          = (fileEvents (snd (unloadById (IdStr s) (runAll ops (init store))))
             ++ [loadOf g; unloadOf g])%list
          /\ JsMap.get (IdStr s)
               (cachedFiles (snd (loadById docID
                  (snd (unloadById (IdStr s) (runAll ops (init store))))))) = None)
  /\ (forall docID,
        JsMap.get docID (cachedFiles (runAll ops (init store))) = None ->
        fst (fst (unloadById docID (runAll ops (init store)))) = [false]
        /\ sameBus (runAll ops (init store))
                   (snd (unloadById docID (runAll ops (init store)))))
  /\ unloadById (IdStr EmptyString) (runAll ops (init store))
     = (([false], Ended), runAll ops (init store))
  /\ (forall docID f,
        notNullish docID = false ->
        JsMap.get docID (cachedFiles (runAll ops (init store))) = Some f ->
        fst (unloadById docID (runAll ops (init store))) = ([true], Ongoing)
        /\ sameBus (runAll ops (init store))
                   (snd (unloadById docID (runAll ops (init store))))).
Proof.
  pose proof (reachable_Inv_any store ops) as Hinv.
  split; [|split; [|split]].
  - intros s f Hs Hget.
    pose proof (lengthBelowOne_string s Hs) as Hlen.
    destruct Hinv as [A1 A2 A3 A4 A5 A6 A7].
    destruct (get_Forall _ _ _ _ A4 Hget) as [Hk _]. simpl in Hk.
    rewrite (unloadById_fires (IdStr s) f _ Hlen A1 A6 A7 Hget (eq_sym Hk) eq_refl).
    simpl. split; [reflexivity|]. split; [reflexivity|].
    split; [apply get_delete_same|]. split.
    { apply watching_last. }
    intros docID g w1 Hfetch Hg.
    set (w0 := mkWorld _ _ _ _ _ _ _ _ _ _ _) in *.
    assert (Hinv0 : Inv anyFile w0).
    { pose proof (Inv_unloadById anyFile (IdStr s) _
                    (mkInv anyFile _ A1 A2 A3 A4 A5 A6 A7)) as H.
      rewrite (unloadById_fires (IdStr s) f _ Hlen A1 A6 A7 Hget (eq_sym Hk) eq_refl)
        in H. exact H. }
    pose proof (getJsonFileFromDrive_sameBus docID w0) as Hb.
    pose proof (getJsonFileFromDrive_subscribers docID w0) as Hu.
    pose proof (getJsonFileFromDrive_passive _ docID _ (Inv_passive anyFile) Hinv0) as H1.
    unfold loadById, bind. rewrite Hfetch in *. simpl in *.
    destruct Hb as (He & Hc & Hsc). destruct Hu as [Hu _].
    destruct H1 as [B1 B2 B3 B4 B5 B6 B7].
    assert (Hk1 : Forall (fun kv => fst kv = id (snd kv)) (cachedFiles w1)).
    { eapply Forall_impl; [|exact B4]. simpl. tauto. }
    destruct (publish_upsert_effect (loadOf g) g w1 B6 B1 Hk1 eq_refl)
      as (_ & _ & _ & _ & Hcase).
    assert (Hw : watching (id g) w1 && notNullish (id g) = true).
    { rewrite Hg. simpl. rewrite andb_true_r. unfold watching. rewrite Hu.
      apply watching_last. }
    rewrite Hw in Hcase. destruct Hcase as (C1 & C2 & C3).
    unfold loadOf in *. rewrite C1, He. split; [reflexivity|].
    rewrite <- Hg. exact C2.
  - intros docID Hget.
    rewrite (unloadById_absent _ docID (inv_alive _ _ Hinv) Hget).
    destruct (lengthBelowOne docID); simpl; split; auto; repeat split.
  - reflexivity.
  - intros docID f Hn Hget.
    destruct (get_Forall _ _ _ _ (inv_cache _ _ Hinv) Hget) as [Hk _]. simpl in Hk.
    assert (Hlen : lengthBelowOne docID = false) by (destruct docID; auto; discriminate).
    rewrite (unloadById_idle docID _ Hlen (inv_alive _ _ Hinv)).
    + rewrite Hget. simpl. split; [reflexivity|repeat split].
    + unfold fires. simpl. rewrite Hget. now rewrite <- Hk.
Qed.

(** X9.  Load, then unload.  In a world the service reaches, when
    [loadById] fetched a document whose id is a string with characters and
    [unloadById] of that id is subscribed right after, two events were
    published, the load and the unload of that document; the snapshot has
    no entry for the id and its other entries are those from before the
    load, and when the id was not cached before, the snapshot is the one
    from before the load.  The subscriber of [unloadById] receives false
    and then true; when a subscription of [unloadById] for that id was open
    already, that one published the unload, and the new subscriber receives
    false only. *)
Theorem load_then_unload (store : R) (ops : list Op) (docID s : string)
  (f : JsonFile) (w1 : World) :
  getJsonFileFromDrive docID (runAll ops (init store)) = (Next f, w1) ->
  id f = IdStr s -> s <> EmptyString ->
  fst (unloadById (IdStr s) (snd (loadById docID (runAll ops (init store)))))
  = (if watching (IdStr s) (runAll ops (init store)) then [false] else [false; true],
     Ongoing)
  /\ fileEvents
       (snd (unloadById (IdStr s) (snd (loadById docID (runAll ops (init store))))))
     = (fileEvents (runAll ops (init store)) ++ [loadOf f; unloadOf f])%list
  /\ JsMap.get (IdStr s)
       (cachedFiles
          (snd (unloadById (IdStr s) (snd (loadById docID (runAll ops (init store)))))))
     = None
  /\ (forall k, k <> IdStr s ->
        JsMap.get k
          (cachedFiles
             (snd (unloadById (IdStr s) (snd (loadById docID (runAll ops (init store)))))))
        = JsMap.get k (cachedFiles (runAll ops (init store))))
  /\ (JsMap.get (IdStr s) (cachedFiles (runAll ops (init store))) = None ->
      cachedFiles
        (snd (unloadById (IdStr s) (snd (loadById docID (runAll ops (init store))))))
      = cachedFiles (runAll ops (init store))).
Proof.
  intros Hfetch Hid Hs.
  pose proof (reachable_Inv_any store ops) as Hinv.
  pose proof (lengthBelowOne_string s Hs) as Hlen.
  pose proof (getJsonFileFromDrive_sameBus docID (runAll ops (init store))) as Hb.
  pose proof (getJsonFileFromDrive_subscribers docID (runAll ops (init store))) as Hu.
  pose proof (getJsonFileFromDrive_passive _ docID _ (Inv_passive anyFile) Hinv) as H1.
  rewrite Hfetch in Hb, Hu, H1. simpl in Hb, Hu, H1.
  destruct Hb as (He & Hc & Hsc). destruct Hu as [Hu _].
  assert (Hl : loadById docID (runAll ops (init store))
               = (Next true, publish (loadOf f) w1)).
  { unfold loadById, bind. now rewrite Hfetch. }
  rewrite Hl. simpl.
  assert (Hinv2 : Inv anyFile (publish (loadOf f) w1)).
  { apply Inv_publish; auto. split; simpl; eauto. exists f. split; [reflexivity|exact I]. }
  assert (Hk1 : Forall (fun kv => fst kv = id (snd kv)) (cachedFiles w1)).
  { eapply Forall_impl; [|exact (inv_cache _ _ H1)]. simpl. tauto. }
  destruct (publish_upsert_effect (loadOf f) f w1 (inv_calm _ _ H1) (inv_alive _ _ H1)
              Hk1 eq_refl) as (_ & _ & _ & Hother & Hcase).
  replace (watching (id f) w1) with (watching (IdStr s) (runAll ops (init store)))
    in Hcase by (unfold watching; now rewrite Hu, Hid).
  rewrite Hid in *. simpl in Hcase. rewrite andb_true_r in Hcase.
  set (w2 := publish (loadOf f) w1) in *.
  destruct Hinv2 as [A1 A2 A3 A4 A5 A6 A7].
  destruct (watching (IdStr s) (runAll ops (init store))).
  - destruct Hcase as (C1 & C2 & C3).
    rewrite (unloadById_absent w2 (IdStr s) A1 C2), Hlen. simpl.
    split; [reflexivity|]. split; [now rewrite C1, He|].
    split; [exact C2|]. split.
    + intros k Hne. rewrite Hother; auto. now rewrite Hc.
    + intros _. now rewrite C3.
  - destruct Hcase as (C1 & C2).
    assert (Hg2 : JsMap.get (IdStr s) (cachedFiles w2) = Some f).
    { rewrite C2. apply get_set_same. }
    rewrite (unloadById_fires (IdStr s) f w2 Hlen A1 A6 A7 Hg2 Hid eq_refl). simpl.
    split; [reflexivity|]. split.
    { rewrite C1, He, <- app_assoc. reflexivity. }
    split; [apply get_delete_same|]. split.
    + intros k Hne. rewrite get_delete_other by exact Hne.
      rewrite Hother; auto. now rewrite Hc.
    + intros Hnone. rewrite C2, Hc. now apply delete_set_absent.
Qed.

(** X10.  In a world the service reaches, a second [unloadById] of the
    same string id right after the first finds nothing: it delivers false,
    publishes nothing and leaves the snapshot as the first left it; the
    world differs from the one the first left by the new subscription
    alone, and not at all for the empty id. *)
Theorem unloadById_twice (store : R) (ops : list Op) (s : string) :
  unloadById (IdStr s) (snd (unloadById (IdStr s) (runAll ops (init store))))
  = if lengthBelowOne (IdStr s)
    then (([false], Ended), snd (unloadById (IdStr s) (runAll ops (init store))))
    else (([false], Ongoing),
          logDelivery (tickets (snd (unloadById (IdStr s) (runAll ops (init store)))))
            false
            (subscribeUnloader (IdStr s)
               (snd (unloadById (IdStr s) (runAll ops (init store)))))).
Proof.
  pose proof (reachable_Inv_any store ops) as Hinv.
  pose proof (Inv_unloadById anyFile (IdStr s) _ Hinv) as Hinv1.
  destruct (lengthBelowOne (IdStr s)) eqn:Hlen.
  { unfold unloadById. rewrite Hlen. reflexivity. }
  rewrite unloadById_absent; [now rewrite Hlen|apply (inv_alive _ _ Hinv1)|].
  destruct Hinv as [A1 A2 A3 A4 A5 A6 A7].
  destruct (JsMap.get (IdStr s) (cachedFiles (runAll ops (init store)))) as [f|] eqn:Hg.
  - destruct (get_Forall _ _ _ _ A4 Hg) as [Hk _]. simpl in Hk.
    rewrite (unloadById_fires (IdStr s) f _ Hlen A1 A6 A7 Hg (eq_sym Hk) eq_refl).
    simpl. apply get_delete_same.
  - rewrite (unloadById_absent _ _ A1 Hg), Hlen. simpl. exact Hg.
Qed.

(** X24.  In every world the service reaches, a document whose id an open
    subscription of [unloadById] looks up is not cached: whatever was
    loaded or saved under that id since the subscription was made was
    unloaded at once, and a subscriber of [listenDocumentById] for that id
    is told that the document is not found. *)
Theorem watched_documents_are_not_cached (store : R) (ops : list Op) (s : string) :
  watching (IdStr s) (runAll ops (init store)) = true ->
  JsMap.get (IdStr s) (cachedFiles (runAll ops (init store))) = None
  /\ listenDocumentById s (runAll ops (init store)) []
     = ([createErrorEvent s], None).
Proof.
  intros Hw. pose proof (reachable_Inv_any store ops) as Hinv.
  assert (Hget : JsMap.get (IdStr s) (cachedFiles (runAll ops (init store))) = None).
  { apply watched_absent; auto.
    - apply (inv_calm _ _ Hinv).
    - eapply Forall_impl; [|exact (inv_cache _ _ Hinv)]. simpl. tauto. }
  split; [exact Hget|].
  unfold listenDocumentById, currentState, bind, cachedFiles_now, ret. simpl.
  now rewrite Hget.
Qed.

(** X11.  The operations that only talk to the store publish nothing and
    leave the snapshot alone, whether they succeed or fail: the discovery
    of the folder and of the app file, the listing of the accessible
    documents, and [saveJsonFileMetadata], after which the cached document
    is the one from before the rename. *)
Theorem store_only_operations_leave_the_bus (w : World) (name : string)
  (f : JsonFile) :
  sameBus w (snd (getFolderId w))
  /\ sameBus w (snd (getAppDataByName name w))
  /\ sameBus w (snd (getFileManagerAppFile w))
  /\ sameBus w (snd (getAllAccessibleFiles w))
  /\ sameBus w (snd (saveJsonFileMetadata f w)).
Proof.
  pose proof (onBus_passive _ (sameBus_onBus w)) as Hp.
  split; [|split; [|split; [|split]]];
    apply (hoare_from (sameBus w)); try apply sameBus_refl.
  - apply hoare_getFolderId, Hp.
  - apply hoare_getAppDataByName, Hp.
  - apply hoare_getFileManagerAppFile; [exact Hp|].
    intros f0 w0 H. exact H.
  - apply hoare_call; auto.
  - unfold saveJsonFileMetadata.
    eapply hoare_bind; [|intros ?; apply hoare_ret_keep].
    apply hoare_request; [exact Hp|]. intros w0 H. exact H.
Qed.

(** ** More on loading every accessible document *)


Lemma arrival_reduced i m w :
  reduced m = None \/ reduced m = Some true ->
  reduced (fst (arrival i (m, w))) = None
  \/ reduced (fst (arrival i (m, w))) = Some true.
Proof.
  intros H. unfold arrival. destruct (failure m); [exact H|].
  destruct (nth_error (inner m) i) as [[docID|docID f|]|]; try exact H.
  - destruct (answer (files_get drive docID) w) as [[res|e] w']; [|exact H].
    destruct (onMetadata res); exact H.
  - destruct (answer (files_get_media drive docID) w) as [[resBody|e] w'];
      [|exact H].
    simpl. right. destruct H as [H|H]; rewrite H; reflexivity.
Qed.

Lemma arrivals_reduced schedule m w :
  reduced m = None \/ reduced m = Some true ->
  reduced (fst (arrivals schedule (m, w))) = None
  \/ reduced (fst (arrivals schedule (m, w))) = Some true.
Proof.
  revert m w. induction schedule as [|i schedule IH]; intros m w H; [exact H|].
  rewrite arrivals_cons. pose proof (arrival_reduced i m w H) as H1.
  destruct (arrival i (m, w)) as [m' w']. apply IH, H1.
Qed.

(** X12.  Whatever the store holds and whatever the order of the answers,
    the verdict [loadAllAccessibleFiles] delivers is never false: when it
    delivers a boolean, the boolean is true. *)
Theorem loadAll_never_delivers_false (schedule : list nat) (w : World) :
  match fst (loadAllAccessibleFiles schedule w) with
  | Emitted b => b = true
  | _ => True
  end.
Proof.
  unfold loadAllAccessibleFiles.
  destruct (getAllAccessibleFiles w) as [[[files|]|e] w1]; simpl; auto.
  pose proof (arrivals_reduced schedule (fst (subscribeLoads files w1))
                (snd (subscribeLoads files w1)) (or_introl eq_refl)) as H.
  rewrite <- surjective_pairing in H.
  destruct (arrivals schedule (subscribeLoads files w1)) as [m w2]. simpl in *.
  unfold verdict. destruct (failure m); auto.
  destruct (forallb isCompleted (inner m)); auto.
  destruct (reduced m) as [b|]; auto.
  destruct H as [H|H]; congruence.
Qed.

Lemma arrivals_nothing_to_load schedule m w :
  inner m = [] -> arrivals schedule (m, w) = (m, w).
Proof.
  intros H. induction schedule as [|i schedule IH]; [reflexivity|].
  rewrite arrivals_cons.
  assert (Ha : arrival i (m, w) = (m, w)).
  { unfold arrival. rewrite H. destruct (failure m); destruct i; reflexivity. }
  now rewrite Ha.
Qed.

(** X13.  The two edges of the listing.  When the store lists no
    accessible document, [loadAllAccessibleFiles] completes without
    delivering any verdict ([reduce] has no seed), sends no other call and
    publishes nothing; when the answer carries no list at all, it fails
    with a type error. *)
Theorem loadAll_without_documents (schedule : list nat) (w : World) (r : R) :
  (files_list drive allFilesQuery (remote w) = (Ok (Some []), r) ->
   loadAllAccessibleFiles schedule w
   = (CompletedEmpty, setRemote r (logCall (CallFilesList allFilesQuery) w)))
  /\ (files_list drive allFilesQuery (remote w) = (Ok None, r) ->
      loadAllAccessibleFiles schedule w
      = (Errored (Raised "TypeError: Cannot read property 'filter' of undefined"),
         setRemote r (logCall (CallFilesList allFilesQuery) w))).
Proof.
  split; intros H; unfold loadAllAccessibleFiles, getAllAccessibleFiles, call,
    answer; simpl; rewrite H; [|reflexivity].
  unfold subscribeLoads. simpl.
  now rewrite arrivals_nothing_to_load.
Qed.







Section GoodStore.

(** The states [G] of the store in which every listed document can be
    fetched: its metadata say it can be downloaded and its body arrives. *)
Variable G : R -> Prop.
Variable files : list FileRef.
Hypothesis G_metadata :
  forall ref r, In ref files -> G r ->
    exists meta r', files_get drive (ref_id ref) r = (Ok meta, r')
                    /\ canDownload meta = true /\ G r'.
Hypothesis G_media :
  forall ref r, In ref files -> G r ->
    exists resBody r', files_get_media drive (ref_id ref) r = (Ok resBody, r')
                       /\ G r'.




End GoodStore.

(** ** More on save, create and the app file *)

Definition raisedBy {A} (o : Outcome A) : option string :=
  match o with
  | Failed (Raised msg) => Some msg
  | _ => None
  end.

Definition cannotDownloadMessage : string :=
  "Cannot Download File (capabilities.canDownload) - " ++ "[object Object]".

(** The app file the service remembers, when there is one, has a string id. *)
Definition appFileHasId (w : World) : Prop :=
  match fileManagerAppFile w with
  | Some f => exists s, id f = IdStr s
  | None => True
  end.

(** X15.  [saveJsonFile] in a world the service reaches, for a document
    with a diff whose upload the store accepts.  When no open subscription
    of [unloadById] looks up the id of the clone, or the clone has no id,
    one save event is published and the snapshot then maps the id of the
    clone to the clone, whether or not a document of that id was cached
    before.  When one does, the unload of the clone follows the save event
    at once, and the snapshot has no entry for the id and is the one from
    before.  In both cases the other entries are as before. *)
Theorem saveJsonFile_caches_the_clone (store : R) (ops : list Op) (f : JsonFile)
  (res : RequestResult) (r : R) :
  truthy (getDiffData cls f) = true ->
  request drive (saveRequest f) (remote (runAll ops (init store))) = (Ok res, r) ->
  (forall k, k <> id (updateClone cls f) ->
     JsMap.get k (cachedFiles (snd (saveJsonFile f (runAll ops (init store)))))
     = JsMap.get k (cachedFiles (runAll ops (init store))))
  /\ if watching (id (updateClone cls f)) (runAll ops (init store))
        && notNullish (id (updateClone cls f))
     then fileEvents (snd (saveJsonFile f (runAll ops (init store))))
          = (fileEvents (runAll ops (init store))
             ++ [saveOf (updateClone cls f); unloadOf (updateClone cls f)])%list
          /\ JsMap.get (id (updateClone cls f))
               (cachedFiles (snd (saveJsonFile f (runAll ops (init store))))) = None
          /\ cachedFiles (snd (saveJsonFile f (runAll ops (init store))))
             = cachedFiles (runAll ops (init store))
     else fileEvents (snd (saveJsonFile f (runAll ops (init store))))
          = (fileEvents (runAll ops (init store)) ++ [saveOf (updateClone cls f)])%list
          /\ JsMap.get (id (updateClone cls f))
               (cachedFiles (snd (saveJsonFile f (runAll ops (init store)))))
             = Some (updateClone cls f).
Proof.
  intros Hd Hreq. pose proof (reachable_Inv_any store ops) as Hinv.
  unfold saveJsonFile. rewrite Hd. simpl.
  unfold bind, call, answer, next. simpl. rewrite Hreq. simpl.
  set (w0 := setRemote r (logCall (CallRequest (saveRequest f)) (runAll ops (init store)))).
  assert (Hinv0 : Inv anyFile w0).
  { apply Inv_passive. apply Inv_logCall; [|exact Hinv]. simpl. eauto. }
  assert (Hk : Forall (fun kv => fst kv = id (snd kv)) (cachedFiles w0)).
  { eapply Forall_impl; [|exact (inv_cache _ _ Hinv0)]. simpl. tauto. }
  destruct (publish_upsert_effect (saveOf (updateClone cls f)) (updateClone cls f) w0
              (inv_calm _ _ Hinv0) (inv_alive _ _ Hinv0) Hk eq_refl)
    as (_ & _ & _ & Hother & Hcase).
  split; [exact Hother|].
  change (watching (id (updateClone cls f)) w0)
    with (watching (id (updateClone cls f)) (runAll ops (init store))) in Hcase.
  destruct (watching (id (updateClone cls f)) (runAll ops (init store))
            && notNullish (id (updateClone cls f))).
  - exact Hcase.
  - destruct Hcase as (C1 & C2). split; [exact C1|].
    unfold saveOf in C2. rewrite C2. apply get_set_same.
Qed.

Lemma getFolderId_sameBus w : sameBus w (snd (getFolderId w)).
Proof.
  apply (hoare_from (sameBus w)); [|apply sameBus_refl].
  apply hoare_getFolderId, onBus_passive, sameBus_onBus.
Qed.

Lemma getFolderId_subscribers w :
  unloading (snd (getFolderId w)) = unloading w
  /\ retired (snd (getFolderId w)) = retired w.
Proof.
  apply (hoare_from (fun w' => unloading w' = unloading w /\ retired w' = retired w));
    [|split; reflexivity].
  apply hoare_getFolderId. split; intros; assumption.
Qed.

(** X16.  [createAndSaveNewJsonFile(title, content)].  When the folder
    cannot be resolved it fails the same way, sends no upload and publishes
    nothing.  Otherwise it sends the upload; when the store rejects it,
    nothing is published; when the store accepts it, the document delivered
    has the id and the modification time of the answer, the name
    [title-gloomtools.json] and the given content (the content of a new
    document when [null] is given), and one save event with that document
    is published after the events so far; what the log holds after it are
    unloads that open subscriptions of [unloadById] published on seeing the
    document, nothing when no such subscription is open. *)
Theorem createAndSaveNewJsonFile_outcome (title : string) (given : JsValue)
  (w : World) :
  match getFolderId w with
  | (Failed e, w1) => createAndSaveNewJsonFile title given w = (Failed e, w1)
  | (Next folder, w1) =>
      match request drive (createRequest (freshJsonFile title given) folder)
                    (remote w1) with
      | (Throw reason, r) =>
          fst (createAndSaveNewJsonFile title given w) = Failed (Rejected reason)
          /\ fileEvents (snd (createAndSaveNewJsonFile title given w)) = fileEvents w
      | (Ok res, r) =>
          exists created,
            fst (createAndSaveNewJsonFile title given w) = Next created
            /\ id created = IdStr (result_id res)
            /\ modifiedTime created = result_modifiedTime res
            /\ name created = title ++ "-gloomtools.json"
            /\ content created
               = match given with
                 | JNull => content (newJsonFile cls)
                 | _ => given
                 end
            /\ exists reactions,
                 fileEvents (snd (createAndSaveNewJsonFile title given w))
                 = (fileEvents w ++ saveOf created :: reactions)%list
                 /\ Forall reaction reactions
                 /\ (quiet w -> reactions = [])
      end
  end.
Proof.
  pose proof (getFolderId_sameBus w) as Hb.
  pose proof (getFolderId_subscribers w) as Hu.
  unfold createAndSaveNewJsonFile, bind.
  destruct (getFolderId w) as [[folder|e] w1]; [|reflexivity].
  simpl in Hb, Hu. destruct Hb as (He & _ & _).
  unfold call, answer, next. simpl.
  destruct (request drive _ (remote w1)) as [[res|reason] r]; simpl.
  - eexists. split; [reflexivity|]. simpl.
    split; [reflexivity|]. split; [reflexivity|].
    split; [destruct given; reflexivity|]. split.
    + destruct given; reflexivity.
    + match goal with
      | |- context [publish ?e ?w0] =>
          destruct (publish_events e w0) as (reactions & Hlog & Hreact & Hquiet)
      end.
      exists reactions. split; [|split; [exact Hreact|]].
      * rewrite Hlog. simpl. now rewrite He.
      * intros Hq. apply Hquiet. destruct Hu as [Hu1 Hu2].
        eapply quiet_frame; [exact Hu1|exact Hu2|exact Hq].
  - split; [reflexivity|exact He].
Qed.

Lemma getJsonFileFromDrive_failures docID w e :
  fst (getJsonFileFromDrive docID w) = Failed e ->
  e = cannotDownload \/ exists reason, e = Rejected reason.
Proof.
  unfold getJsonFileFromDrive, bind, call, answer, lift, onMetadata. simpl.
  destruct (files_get drive docID (remote w)) as [[meta|reason] r]; simpl.
  - destruct (canDownload meta); simpl.
    + destruct (files_get_media drive docID r) as [[resBody|reason] r']; simpl;
        intros H; inversion H; eauto.
    + intros H; inversion H; auto.
  - intros H; inversion H; eauto.
Qed.

Lemma getAppDataByName_outcome fileName w :
  match fst (getAppDataByName fileName w) with
  | Next f => exists s, id f = IdStr s
  | Failed e => e = cannotDownload \/ exists reason, e = Rejected reason
  end.
Proof.
  unfold getAppDataByName, bind, call, answer. simpl.
  destruct (files_list drive (appDataQuery fileName) (remote w))
    as [[appfiles|reason] r]; simpl; [|eauto].
  assert (H : forall docID w0,
            match fst (getJsonFileFromDrive docID w0) with
            | Next f => exists s, id f = IdStr s
            | Failed e => e = cannotDownload \/ exists reason, e = Rejected reason
            end).
  { intros docID w0.
    destruct (getJsonFileFromDrive docID w0) as [[f|e] w1] eqn:E; simpl.
    - apply (getJsonFileFromDrive_id docID w0 f w1 E).
    - apply (getJsonFileFromDrive_failures docID w0). now rewrite E. }
  destruct appfiles as [[|appfile rest]|]; simpl; try apply H;
    destruct (files_create drive (appDataMetadata fileName) r)
      as [[newId|reason] r']; simpl; eauto; apply H.
Qed.

Lemma appFileHasId_kept store ops : appFileHasId (runAll ops (init store)).
Proof.
  apply (keeps_runAll anyFile appFileHasId).
  - intros; exact I.
  - split; intros; assumption.
  - intros; assumption.
  - intros e w0 _ H. unfold appFileHasId. now rewrite fileManagerAppFile_publish.
  - intros w0.
    apply (by_frame (fun _ a => match a with
                                | Some f => exists s, id f = IdStr s
                                | None => True
                                end)), frame_revive.
  - intros docID w0.
    apply (by_frame (fun _ a => match a with
                                | Some f => exists s, id f = IdStr s
                                | None => True
                                end)), frame_unloadById.
  - intros t w0.
    apply (by_frame (fun _ a => match a with
                                | Some f => exists s, id f = IdStr s
                                | None => True
                                end)), frame_unsubscribe.
  - intros w0 _. apply Forall_forall. intros; exact I.
  - intros w0 H0. unfold getFileManagerAppFile.
    assert (Hr : match resolveFileManagerAppFile w0 with
                 | (Next _, w') => appFileHasId w'
                 | (Failed _, w') => appFileHasId w'
                 end).
    { unfold resolveFileManagerAppFile, bind.
      pose proof (getAppDataByName_outcome fileManagerAppFileName w0) as Ho.
      pose proof (hoare_getAppDataByName appFileHasId fileManagerAppFileName) as Hk.
      assert (Hp : passive appFileHasId) by (split; intros; assumption).
      specialize (Hk Hp w0 H0).
      destruct (getAppDataByName fileManagerAppFileName w0) as [[f|e] w1];
        simpl in *; auto. }
    destruct (fileManagerAppFile w0) as [f|] eqn:Ef; [|exact Hr].
    destruct (id f) as [| |s]; try exact H0.
    destruct (0 <? String.length s)%nat; [exact H0|exact Hr].
  - apply opOk_any.
  - exact I.
Qed.

(** X17.  In every world the service reaches, [getFileManagerAppFile]
    raises no type error: the document it remembers, if any, has a string
    id, so the only error the service itself can raise there is the
    cannot-download error (the other failures are rejections by the
    store). *)
Theorem getFileManagerAppFile_raises_no_type_error (store : R) (ops : list Op) :
  raisedBy (fst (getFileManagerAppFile (runAll ops (init store)))) = None
  \/ raisedBy (fst (getFileManagerAppFile (runAll ops (init store))))
     = Some cannotDownloadMessage.
Proof.
  pose proof (appFileHasId_kept store ops) as Hk.
  set (w := runAll ops (init store)) in *.
  assert (Hr : raisedBy (fst (resolveFileManagerAppFile w)) = None
               \/ raisedBy (fst (resolveFileManagerAppFile w))
                  = Some cannotDownloadMessage).
  { unfold resolveFileManagerAppFile, bind.
    pose proof (getAppDataByName_outcome fileManagerAppFileName w) as Ho.
    destruct (getAppDataByName fileManagerAppFileName w) as [[f|e] w1];
      simpl in *; auto.
    destruct Ho as [->|[reason ->]]; simpl; auto. }
  unfold getFileManagerAppFile, appFileHasId in *.
  destruct (fileManagerAppFile w) as [f|]; [|exact Hr].
  destruct Hk as [s Hs]. rewrite Hs.
  destruct (0 <? String.length s)%nat; [left; reflexivity|exact Hr].
Qed.

(** ** More on the subscribers *)

(** X18.  A subscriber of [listenDocumentById(docId)] and a [loadById]
    that fetches a document with that id, in a world the service reaches.
    When no open subscription of [unloadById] looks up that id, the load
    event is the one event published; the subscriber that was there before
    the load has received its current-state event and then the load event,
    two events in all, and one that subscribes after the load receives the
    load of that document as its current state.  When such a subscription
    is open, the unload of the document was published right after the load,
    and one that subscribes after the load is told that the document is not
    found. *)
Theorem subscriber_sees_the_load (store : R) (ops : list Op) (docID : string)
  (f : JsonFile) (w1 : World) :
  getJsonFileFromDrive docID (runAll ops (init store)) = (Next f, w1) ->
  id f = IdStr docID ->
  if watching (IdStr docID) (runAll ops (init store))
  then
    fileEvents (snd (loadById docID (runAll ops (init store))))
    = (fileEvents (runAll ops (init store)) ++ [loadOf f; unloadOf f])%list
    /\ listenDocumentById docID (snd (loadById docID (runAll ops (init store)))) []
       = ([createErrorEvent docID], None)
  else
    fileEvents (snd (loadById docID (runAll ops (init store))))
    = (fileEvents (runAll ops (init store)) ++ [loadOf f])%list
    /\ listenDocumentById docID (runAll ops (init store)) [loadOf f]
       = ([match JsMap.get (IdStr docID) (cachedFiles (runAll ops (init store))) with
           | Some old => loadOf old
           | None => createErrorEvent docID
           end; loadOf f], None)
    /\ listenDocumentById docID (snd (loadById docID (runAll ops (init store)))) []
       = ([loadOf f], None).
Proof.
  intros Hget Hid.
  pose proof (reachable_Inv_any store ops) as Hinv.
  pose proof (getJsonFileFromDrive_sameBus docID (runAll ops (init store))) as Hb.
  pose proof (getJsonFileFromDrive_subscribers docID (runAll ops (init store))) as Hu.
  pose proof (getJsonFileFromDrive_passive _ docID _ (Inv_passive anyFile) Hinv) as H1.
  rewrite Hget in Hb, Hu, H1. simpl in Hb, Hu, H1.
  destruct Hb as (He & Hc & Hs). destruct Hu as [Hu _].
  assert (Hl : loadById docID (runAll ops (init store))
               = (Next true, publish (loadOf f) w1)).
  { unfold loadById, bind. now rewrite Hget. }
  rewrite Hl. simpl snd.
  assert (Hk1 : Forall (fun kv => fst kv = id (snd kv)) (cachedFiles w1)).
  { eapply Forall_impl; [|exact (inv_cache _ _ H1)]. simpl. tauto. }
  destruct (publish_upsert_effect (loadOf f) f w1 (inv_calm _ _ H1) (inv_alive _ _ H1)
              Hk1 eq_refl) as (_ & _ & _ & _ & Hcase).
  replace (watching (id f) w1) with (watching (IdStr docID) (runAll ops (init store)))
    in Hcase by (unfold watching; now rewrite Hu, Hid).
  rewrite Hid in Hcase. simpl in Hcase. rewrite andb_true_r in Hcase.
  destruct (watching (IdStr docID) (runAll ops (init store))).
  - destruct Hcase as (C1 & C2 & C3). split; [now rewrite C1, He|].
    unfold listenDocumentById, currentState, bind, cachedFiles_now, ret. simpl.
    now rewrite C2.
  - destruct Hcase as (C1 & C2). split; [now rewrite C1, He|]. split.
    + unfold listenDocumentById, currentState, bind, cachedFiles_now, ret.
      simpl. rewrite Hid, JsId_eqb_refl. reflexivity.
    + unfold listenDocumentById, currentState, bind, cachedFiles_now, ret. simpl.
      now rewrite C2, get_set_same.
Qed.

(** X19.  An event without a document ends [futureState$]: the subscriber
    has received the earlier events of its document, then the stream fails
    with the type error of reading [id] of [null], and nothing published
    after that event reaches it. *)
Theorem futureState_ends_at_null_file (docId : string)
  (before after : list FileAlertEvent) (e : FileAlertEvent) :
  Forall (fun ev => exists f, file ev = Some f) before ->
  file e = None ->
  futureState docId (before ++ e :: after)
  = (filter (aboutId (IdStr docId)) before,
     Some (Raised "TypeError: Cannot read property 'id' of null")).
Proof.
  intros Hb He. induction Hb as [|ev before [f Hf] _ IH]; simpl.
  - now rewrite He.
  - rewrite Hf, IH.
    assert (Hk : aboutId (IdStr docId) ev = JsId_eqb (id f) (IdStr docId)).
    { unfold aboutId. now rewrite Hf. }
    rewrite Hk. destruct (JsId_eqb (id f) (IdStr docId)); reflexivity.
Qed.

(** X20.  [initializeFileCashe()] called on a running service forgets the
    cached documents without a word: no event is published, and right
    after it every document is reported as not found, [unloadById] finds
    nothing (it delivers false, publishes nothing and leaves the new
    snapshot empty) and [clearAllDocuments] has nothing to unload, whatever
    was cached before. *)
Theorem initializeFileCashe_forgets (w : World) (docID : JsId) (s : string) :
  fileEvents (initializeFileCashe w) = fileEvents w
  /\ listenDocumentById s (initializeFileCashe w) [] = ([createErrorEvent s], None)
  /\ unloadById docID (initializeFileCashe w)
     = (if lengthBelowOne docID then (([false], Ended), initializeFileCashe w)
        else (([false], Ongoing),
              logDelivery (tickets w) false
                (subscribeUnloader docID (initializeFileCashe w))))
  /\ sameBus (initializeFileCashe w) (snd (unloadById docID (initializeFileCashe w)))
  /\ clearAllDocuments (initializeFileCashe w) = (Next tt, initializeFileCashe w).
Proof.
  assert (Hu : unloadById docID (initializeFileCashe w)
               = (if lengthBelowOne docID then (([false], Ended), initializeFileCashe w)
                  else (([false], Ongoing),
                        logDelivery (tickets w) false
                          (subscribeUnloader docID (initializeFileCashe w))))).
  { exact (unloadById_absent (initializeFileCashe w) docID eq_refl eq_refl). }
  split; [reflexivity|]. split; [reflexivity|]. split; [exact Hu|].
  split; [|reflexivity].
  rewrite Hu. destruct (lengthBelowOne docID); repeat split.
Qed.

(** X21.  [unloadFile(file)] while the fold is alive and the service calm,
    as it is between two operations.  For [null] or a document without an
    id nothing happens.  For a document with an id one unload event is
    published, whether or not a document of that id is cached; afterwards
    the snapshot has no entry for that id, its other entries are as before,
    and it is the snapshot from before when the id was not cached. *)
Theorem unloadFile_removes_by_id (w : World) (f : JsonFile) :
  scanError w = None -> calm w ->
  unloadFile None w = (Next tt, w)
  /\ (notNullish (id f) = false -> unloadFile (Some f) w = (Next tt, w))
  /\ (notNullish (id f) = true ->
        fileEvents (snd (unloadFile (Some f) w)) = (fileEvents w ++ [unloadOf f])%list
        /\ JsMap.get (id f) (cachedFiles (snd (unloadFile (Some f) w))) = None
        /\ (forall k, k <> id f ->
              JsMap.get k (cachedFiles (snd (unloadFile (Some f) w)))
              = JsMap.get k (cachedFiles w))
        /\ (JsMap.get (id f) (cachedFiles w) = None ->
            cachedFiles (snd (unloadFile (Some f) w)) = cachedFiles w)).
Proof.
  intros Ha Hcalm. split; [reflexivity|]. split.
  - intros Hn. unfold unloadFile. now rewrite Hn.
  - intros Hn. unfold unloadFile. rewrite Hn. unfold next. simpl.
    destruct (publish_unload f w Hcalm Ha) as (P1 & P2 & _).
    rewrite P1, P2.
    split; [reflexivity|]. split; [apply get_delete_same|]. split.
    + intros k Hk. now apply get_delete_other.
    + apply delete_absent.
Qed.

(** ** The character page *)

Lemma onCharacterEvent_not_decisive ev c :
  decisive ev = false -> onCharacterEvent ev c = c.
Proof.
  unfold decisive, onCharacterEvent, isOneOf. simpl.
  destruct (isCharacter (cFile ev)); [|reflexivity]. simpl.
  destruct (cAction ev =? "update"); [discriminate|].
  destruct (cAction ev =? "load"); [discriminate|].
  destruct (cAction ev =? "unload"); [discriminate|]. reflexivity.
Qed.

(** X22.  The character page reacts to the update, load and unload events
    of character documents only: taking every other event out of what its
    stream delivers (save and error events, events of documents that are
    not characters) leaves the component in the same state. *)
Theorem character_page_ignores_the_rest (events : list CharacterEvent)
  (c : CharacterComponent) :
  deliverAll events c = deliverAll (filter decisive events) c.
Proof.
  unfold deliverAll. revert c. induction events as [|ev events IH]; intros c; simpl.
  - reflexivity.
  - destruct (decisive ev) eqn:E; simpl.
    + apply IH.
    + rewrite (onCharacterEvent_not_decisive ev c E). apply IH.
Qed.

Lemma deliverAll_app events1 events2 c :
  deliverAll (events1 ++ events2) c = deliverAll events2 (deliverAll events1 c).
Proof. unfold deliverAll. apply fold_left_app. Qed.

(** X23.  What the character page shows is decided by the last update,
    load or unload event of a character document: after an update or a load
    it holds the document of that event, after an unload it holds none and
    its message names the character that was unloaded, whatever was
    delivered before. *)
Theorem character_page_follows_the_last_event (events : list CharacterEvent)
  (ev : CharacterEvent) (c : CharacterComponent) :
  decisive ev = true ->
  ((cAction ev =? "unload") = false ->
     characterFile (deliverAll (events ++ [ev]) c) = Some (cFile ev)
     /\ errorMessage (deliverAll (events ++ [ev]) c)
        = errorMessage (deliverAll events c))
  /\ ((cAction ev =? "unload") = true ->
        characterFile (deliverAll (events ++ [ev]) c) = None
        /\ errorMessage (deliverAll (events ++ [ev]) c)
           = character_name (cFile ev)
             ++ " was just unloaded and is no longer in memory").
Proof.
  intros Hd. rewrite deliverAll_app. unfold deliverAll at 1 3 5 7. simpl.
  unfold decisive, isOneOf in Hd. simpl in Hd.
  unfold onCharacterEvent.
  destruct (isCharacter (cFile ev)); [|discriminate]. simpl in Hd.
  destruct (cAction ev =? "update") eqn:Eu; simpl.
  - split; [auto|]. intros Hun.
    apply String.eqb_eq in Eu. apply String.eqb_eq in Hun. congruence.
  - destruct (cAction ev =? "load") eqn:El; simpl.
    + split; [auto|]. intros Hun.
      apply String.eqb_eq in El. apply String.eqb_eq in Hun. congruence.
    + destruct (cAction ev =? "unload") eqn:En; [|discriminate].
      split; [discriminate|]. auto.
Qed.

End Service.

(** ** The service on the small store *)

Local Abbreviation demoRun ops :=
  (runAll Demo.drive Demo.cls Demo.JSON ops (init Demo.store)).

(** C6, on the store of the examples: [a] cannot be downloaded, [b] and [c]
    can, and [loadById] of [b] alone succeeds.  [loadAllAccessibleFiles]
    sends the three metadata requests; the answer for [a] arrives first and
    ends the merged stream with the cannot-download error.  The answers for
    [b] and [c] that arrive afterwards are dropped: no body is requested, no
    load event is published, nothing is cached, and the subscriber receives
    the error, not a boolean. *)
Theorem loadAll_failure_drops_the_other_loads :
  fst (loadById Demo.drive Demo.cls Demo.JSON "b" (init Demo.store)) = Next true
  /\ fst (loadAllAccessibleFiles Demo.drive Demo.cls Demo.JSON [0; 1; 1; 2; 2]
            (init Demo.store))
     = Errored cannotDownload
  /\ fileEvents (snd (loadAllAccessibleFiles Demo.drive Demo.cls Demo.JSON
                        [0; 1; 1; 2; 2] (init Demo.store))) = []
  /\ cachedFiles (snd (loadAllAccessibleFiles Demo.drive Demo.cls Demo.JSON
                         [0; 1; 1; 2; 2] (init Demo.store))) = JsMap.empty
  /\ calls (snd (loadAllAccessibleFiles Demo.drive Demo.cls Demo.JSON
                   [0; 1; 1; 2; 2] (init Demo.store)))
     = [CallFilesList allFilesQuery; CallFilesGet "a" "*"; CallFilesGet "b" "*";
        CallFilesGet "c" "*"].
Proof. repeat split. Qed.

Lemma accumulator_step_witness :
  file Demo.loadB = Some Demo.fileB
  /\ isOneOf (action Demo.loadB) ["load"; "save"; "update"] = true
  /\ exists m', accumulator JsMap.empty Demo.loadB = Ok m'
                /\ JsMap.get (id Demo.fileB) m' = Some Demo.fileB.
Proof.
  split; [vm_compute; reflexivity|]. split; [vm_compute; reflexivity|].
  destruct (accumulator_step JsMap.empty Demo.loadB) as [_ H].
  destruct (H Demo.fileB eq_refl) as [Hload _].
  exact (Hload eq_refl).
Defined.


Lemma unloadById_delivers_false_then_true_witness :
  "b" <> EmptyString
  /\ JsMap.get (IdStr "b") (cachedFiles (demoRun [OpLoadById "b"])) = Some Demo.fileB
  /\ fst (unloadById (IdStr "b") (demoRun [OpLoadById "b"])) = ([false; true], Ongoing)
  /\ fileEvents (snd (unloadById (IdStr "b") (demoRun [OpLoadById "b"])))
     = [Demo.loadB; Demo.unloadB]
  /\ fileEvents
       (snd (loadById Demo.drive Demo.cls Demo.JSON "b"
               (snd (unloadById (IdStr "b") (demoRun [OpLoadById "b"])))))
     = [Demo.loadB; Demo.unloadB; Demo.loadB; Demo.unloadB]
  /\ cachedFiles
       (snd (loadById Demo.drive Demo.cls Demo.JSON "b"
               (snd (unloadById (IdStr "b") (demoRun [OpLoadById "b"])))))
     = JsMap.empty.
Proof.
  assert (H1 : "b" <> EmptyString) by discriminate.
  assert (H2 : JsMap.get (IdStr "b") (cachedFiles (demoRun [OpLoadById "b"]))
               = Some Demo.fileB) by (vm_compute; reflexivity).
  split; [exact H1|]. split; [exact H2|].
  destruct (unloadById_delivers_false_then_true Demo.drive Demo.cls Demo.JSON
              Demo.store [OpLoadById "b"]) as (Hpresent & _ & _ & _).
  destruct (Hpresent "b" Demo.fileB H1 H2) as (Hd & He & _ & _ & Hlater).
  split; [exact Hd|]. split; [exact He|].
  assert (H3 : getJsonFileFromDrive Demo.drive Demo.cls Demo.JSON "b"
                 (snd (unloadById (IdStr "b") (demoRun [OpLoadById "b"])))
               = (Next Demo.fileB,
                  snd (getJsonFileFromDrive Demo.drive Demo.cls Demo.JSON "b"
                         (snd (unloadById (IdStr "b") (demoRun [OpLoadById "b"]))))))
    by (vm_compute; reflexivity).
  destruct (Hlater "b" Demo.fileB _ H3 eq_refl) as (Hl & _).
  split; [exact Hl|vm_compute; reflexivity].
Defined.

Lemma fold_replay_witness :
  fileEvents (demoRun [OpLoadById "b"])
  = fileEvents (demoRun [OpGetFolderId; OpLoadById "b"; OpLoadById "a"])
  /\ cachedFiles (demoRun [OpLoadById "b"])
     = cachedFiles (demoRun [OpGetFolderId; OpLoadById "b"; OpLoadById "a"]).
Proof.
  assert (H : fileEvents (demoRun [OpLoadById "b"])
              = fileEvents (demoRun [OpGetFolderId; OpLoadById "b"; OpLoadById "a"]))
    by (vm_compute; reflexivity).
  split; [exact H|].
  destruct (fold_replay Demo.drive Demo.cls Demo.JSON) as (_ & _ & Hsame).
  exact (Hsame Demo.store [OpLoadById "b"] Demo.store
               [OpGetFolderId; OpLoadById "b"; OpLoadById "a"] H).
Defined.

Lemma saveJsonFile_only_with_a_diff_witness :
  truthy (getDiffData Demo.cls Demo.fileB_clean) = false
  /\ saveJsonFile Demo.drive Demo.cls Demo.JSON Demo.fileB_clean (demoRun [])
     = (Next Demo.fileB_clean, demoRun [])
  /\ truthy (getDiffData Demo.cls Demo.fileB) = true
  /\ calls (snd (saveJsonFile Demo.drive Demo.cls Demo.JSON Demo.fileB (demoRun [])))
     = [CallRequest (saveRequest Demo.cls Demo.JSON Demo.fileB)]
  /\ request Demo.drive (saveRequest Demo.cls Demo.JSON Demo.fileB)
       (remote (demoRun []))
     = (Ok (mkResult "uploaded-1" "2020-06-01"), Demo.store)
  /\ quiet (demoRun [])
  /\ fileEvents (snd (saveJsonFile Demo.drive Demo.cls Demo.JSON Demo.fileB
                        (demoRun [])))
     = [mkEvent "save" (Some Demo.fileB)].
Proof.
  assert (H1 : truthy (getDiffData Demo.cls Demo.fileB_clean) = false)
    by (vm_compute; reflexivity).
  assert (H2 : truthy (getDiffData Demo.cls Demo.fileB) = true)
    by (vm_compute; reflexivity).
  assert (H3 : request Demo.drive (saveRequest Demo.cls Demo.JSON Demo.fileB)
                 (remote (demoRun []))
               = (Ok (mkResult "uploaded-1" "2020-06-01"), Demo.store))
    by (vm_compute; reflexivity).
  assert (H4 : quiet (demoRun [])) by (split; constructor).
  split; [exact H1|]. split.
  - exact (proj1 (saveJsonFile_only_with_a_diff Demo.drive Demo.cls Demo.JSON
                    Demo.fileB_clean (demoRun [])) H1).
  - split; [exact H2|].
    destruct (saveJsonFile_only_with_a_diff Demo.drive Demo.cls Demo.JSON
                Demo.fileB (demoRun [])) as (_ & Hdiff & _).
    destruct (Hdiff H2) as (Hcalls & _ & Hok & _).
    split; [exact Hcalls|]. split; [exact H3|]. split; [exact H4|].
    destruct (Hok _ _ H3) as (_ & reactions & He & _ & Hnone).
    rewrite (Hnone H4) in He. exact He.
Defined.


Lemma discover_or_create_witness :
  getFileManagerAppFile Demo.drive Demo.cls Demo.JSON (demoRun [])
  = (Next Demo.appFile, demoRun [OpGetFileManagerAppFile])
  /\ nonEmptyId Demo.appFile
  /\ getFileManagerAppFile Demo.drive Demo.cls Demo.JSON
       (runAll Demo.drive Demo.cls Demo.JSON [OpLoadById "b"; OpGetFolderId]
          (demoRun [OpGetFileManagerAppFile]))
     = (Next Demo.appFile,
        runAll Demo.drive Demo.cls Demo.JSON [OpLoadById "b"; OpGetFolderId]
          (demoRun [OpGetFileManagerAppFile])).
Proof.
  assert (H1 : getFileManagerAppFile Demo.drive Demo.cls Demo.JSON (demoRun [])
               = (Next Demo.appFile, demoRun [OpGetFileManagerAppFile]))
    by (vm_compute; reflexivity).
  assert (H2 : nonEmptyId Demo.appFile).
  { exists "created-1". split; reflexivity. }
  split; [exact H1|]. split; [exact H2|].
  destruct (discover_or_create Demo.drive Demo.cls Demo.JSON (demoRun []))
    as (_ & _ & _ & Hcache).
  exact (proj2 (Hcache _ _ H1 H2) [OpLoadById "b"; OpGetFolderId]).
Defined.



(** C8 as it is worded fails on the store of the examples: after
    [getAppDataByName] resolved the app file, a second [getAppDataByName]
    asks the store again, and after [getFolderId] resolved the folder, a
    second [getFolderId] asks the store again, [_folderId] being still
    unset. *)
Lemma resolution_is_not_remembered :
  calls (snd (getAppDataByName Demo.drive Demo.cls Demo.JSON fileManagerAppFileName
                (demoRun [OpGetAppDataByName fileManagerAppFileName])))
  <> calls (demoRun [OpGetAppDataByName fileManagerAppFileName])
  /\ calls (snd (getFolderId Demo.drive (demoRun [OpGetFolderId])))
     <> calls (demoRun [OpGetFolderId])
  /\ folderId (demoRun [OpGetFolderId]) = IdUndefined.
Proof.
  split; [|split].
  - vm_compute. discriminate.
  - vm_compute. discriminate.
  - reflexivity.
Qed.

(** ** More examples on the small store *)

Module Demo2.

Definition fileC : JsonFile :=
  mkJsonFile (IdStr "c") "C.json" true "2020-01-01" (JObject []).

Definition someEvents : list FileAlertEvent :=
  [Demo.loadB; loadOf fileC; mkEvent "error" None; Demo.unloadB; saveOf fileC].



Definition afterFetchB : World :=
  mkWorld [] JsMap.empty None IdUndefined None Demo.store
          [CallFilesGet "b" "*"; CallFilesGetMedia "b"] [] [] [] 0.


(** The service with one subscription of [unloadById], for [b], left open. *)
Definition watchingB : World := demoRun [OpUnloadById (IdStr "b")].

Definition watchingB_afterFetchB : World :=
  snd (getJsonFileFromDrive Demo.drive Demo.cls Demo.JSON "b" watchingB).

Definition hero : CharacterFile := mkCharacterFile true "Brute" Demo.fileB.

End Demo2.


Lemma upsert_then_remove_witness :
  JsMap.get (id Demo.fileB) JsMap.empty = None
  /\ upserts "save" = true /\ removes "error" = true
  /\ scan JsMap.empty [mkEvent "save" (Some Demo.fileB);
                       mkEvent "error" (Some Demo.fileB)]
     = Ok JsMap.empty.
Proof.
  repeat (split; [vm_compute; reflexivity|]).
  exact (upsert_then_remove JsMap.empty Demo.fileB "save" "error"
           eq_refl eq_refl eq_refl).
Defined.

Lemma entry_depends_on_its_events_witness :
  scan JsMap.empty Demo2.someEvents = Ok [(IdStr "c", Demo2.fileC)]
  /\ exists m2,
       scan JsMap.empty (filter (aboutId (IdStr "c")) Demo2.someEvents) = Ok m2
       /\ JsMap.get (IdStr "c") m2
          = JsMap.get (IdStr "c") [(IdStr "c", Demo2.fileC)].
Proof.
  assert (H : scan JsMap.empty Demo2.someEvents = Ok [(IdStr "c", Demo2.fileC)])
    by (vm_compute; reflexivity).
  split; [exact H|].
  exact (entry_depends_on_its_events (IdStr "c") JsMap.empty _ Demo2.someEvents H).
Defined.

Lemma snapshot_has_one_entry_per_id_witness :
  cachedFilesAfter Demo2.someEvents = Ok [(IdStr "c", Demo2.fileC)]
  /\ NoDup (JsMap.keys [(IdStr "c", Demo2.fileC)]).
Proof.
  assert (H : cachedFilesAfter Demo2.someEvents = Ok [(IdStr "c", Demo2.fileC)])
    by (vm_compute; reflexivity).
  split; [exact H|].
  exact (proj1 (snapshot_has_one_entry_per_id Demo2.someEvents _ H)).
Defined.

Lemma listenDocuments_after_upsert_witness :
  upserts "load" = true
  /\ accumulator [(IdStr "b", Demo.fileB)] (mkEvent "load" (Some Demo2.fileC))
     = Ok [(IdStr "b", Demo.fileB); (IdStr "c", Demo2.fileC)]
  /\ JsMap.get (id Demo2.fileC) [(IdStr "b", Demo.fileB)] = None
  /\ listenDocuments [(IdStr "b", Demo.fileB); (IdStr "c", Demo2.fileC)]
     = (listenDocuments [(IdStr "b", Demo.fileB)] ++ [Demo2.fileC])%list.
Proof.
  assert (H1 : upserts "load" = true) by (vm_compute; reflexivity).
  assert (H2 : accumulator [(IdStr "b", Demo.fileB)]
                           (mkEvent "load" (Some Demo2.fileC))
               = Ok [(IdStr "b", Demo.fileB); (IdStr "c", Demo2.fileC)])
    by (vm_compute; reflexivity).
  split; [exact H1|]. split; [exact H2|]. split; [vm_compute; reflexivity|].
  exact (proj1 (listenDocuments_after_upsert _ _ Demo2.fileC "load" H1 H2) eq_refl).
Defined.

Lemma loadById_publishes_what_it_fetched_witness :
  IdStr "c" <> id Demo.fileB
  /\ watching (id Demo.fileB) Demo2.watchingB = true
  /\ JsMap.get (IdStr "c")
       (cachedFiles (publish (loadOf Demo.fileB) Demo2.watchingB_afterFetchB))
     = JsMap.get (IdStr "c") (cachedFiles Demo2.watchingB)
  /\ fileEvents (publish (loadOf Demo.fileB) Demo2.watchingB_afterFetchB)
     = [loadOf Demo.fileB; unloadOf Demo.fileB]
  /\ cachedFiles (publish (loadOf Demo.fileB) Demo2.watchingB_afterFetchB)
     = JsMap.empty.
Proof.
  assert (H : IdStr "c" <> id Demo.fileB) by discriminate.
  split; [exact H|]. split; [vm_compute; reflexivity|].
  pose proof (loadById_publishes_what_it_fetched Demo.drive Demo.cls Demo.JSON
                Demo.store [OpUnloadById (IdStr "b")] "b") as Hl.
  assert (E : getJsonFileFromDrive Demo.drive Demo.cls Demo.JSON "b"
                (demoRun [OpUnloadById (IdStr "b")])
              = (Next Demo.fileB, Demo2.watchingB_afterFetchB))
    by (vm_compute; reflexivity).
  rewrite E in Hl. destruct Hl as (_ & Hother & Hcase).
  assert (Ew : watching (id Demo.fileB) (demoRun [OpUnloadById (IdStr "b")]) = true)
    by (vm_compute; reflexivity).
  rewrite Ew in Hcase. destruct Hcase as (He & _ & Hc).
  split; [exact (Hother (IdStr "c") H)|]. split; [exact He|exact Hc].
Defined.

Lemma load_then_unload_witness :
  getJsonFileFromDrive Demo.drive Demo.cls Demo.JSON "b" (demoRun [])
  = (Next Demo.fileB, Demo2.afterFetchB)
  /\ id Demo.fileB = IdStr "b" /\ "b" <> EmptyString
  /\ fst (unloadById (IdStr "b")
            (snd (loadById Demo.drive Demo.cls Demo.JSON "b" (demoRun []))))
     = ([false; true], Ongoing)
  /\ fileEvents
       (snd (unloadById (IdStr "b")
               (snd (loadById Demo.drive Demo.cls Demo.JSON "b" (demoRun [])))))
     = [loadOf Demo.fileB; unloadOf Demo.fileB]
  /\ cachedFiles
       (snd (unloadById (IdStr "b")
               (snd (loadById Demo.drive Demo.cls Demo.JSON "b" (demoRun [])))))
     = JsMap.empty.
Proof.
  assert (H1 : getJsonFileFromDrive Demo.drive Demo.cls Demo.JSON "b" (demoRun [])
               = (Next Demo.fileB, Demo2.afterFetchB)) by (vm_compute; reflexivity).
  assert (H2 : "b" <> EmptyString) by discriminate.
  split; [exact H1|]. split; [vm_compute; reflexivity|]. split; [exact H2|].
  destruct (load_then_unload Demo.drive Demo.cls Demo.JSON Demo.store [] "b" "b"
              Demo.fileB Demo2.afterFetchB H1 eq_refl H2)
    as (Hu & He & _ & _ & Hsame).
  split; [exact Hu|]. split; [exact He|].
  exact (Hsame eq_refl).
Defined.

Lemma watched_documents_are_not_cached_witness :
  watching (IdStr "b")
    (demoRun [OpLoadById "b"; OpUnloadById (IdStr "b"); OpLoadById "b";
              OpSaveJsonFile Demo.fileB]) = true
  /\ fileEvents
       (demoRun [OpLoadById "b"; OpUnloadById (IdStr "b"); OpLoadById "b";
                 OpSaveJsonFile Demo.fileB])
     = [Demo.loadB; Demo.unloadB; Demo.loadB; Demo.unloadB;
        saveOf Demo.fileB; Demo.unloadB]
  /\ JsMap.get (IdStr "b")
       (cachedFiles
          (demoRun [OpLoadById "b"; OpUnloadById (IdStr "b"); OpLoadById "b";
                    OpSaveJsonFile Demo.fileB]))
     = None.
Proof.
  assert (H : watching (IdStr "b")
                (demoRun [OpLoadById "b"; OpUnloadById (IdStr "b"); OpLoadById "b";
                          OpSaveJsonFile Demo.fileB]) = true)
    by (vm_compute; reflexivity).
  split; [exact H|]. split; [vm_compute; reflexivity|].
  exact (proj1 (watched_documents_are_not_cached Demo.drive Demo.cls Demo.JSON
                  Demo.store
                  [OpLoadById "b"; OpUnloadById (IdStr "b"); OpLoadById "b";
                   OpSaveJsonFile Demo.fileB] "b" H)).
Defined.

Lemma loadAll_without_documents_witness :
  files_list Demo.drive allFilesQuery (remote (@init Demo.Store [])) = (Ok (Some []), [])
  /\ loadAllAccessibleFiles Demo.drive Demo.cls Demo.JSON [0; 1; 0] (init [])
     = (CompletedEmpty,
        setRemote [] (logCall (CallFilesList allFilesQuery) (init []))).
Proof.
  assert (H : files_list Demo.drive allFilesQuery (remote (@init Demo.Store []))
              = (Ok (Some []), [])) by (vm_compute; reflexivity).
  split; [exact H|].
  exact (proj1 (loadAll_without_documents Demo.drive Demo.cls Demo.JSON
                  [0; 1; 0] (init []) []) H).
Defined.


Lemma saveJsonFile_caches_the_clone_witness :
  truthy (getDiffData Demo.cls Demo.fileB) = true
  /\ request Demo.drive (saveRequest Demo.cls Demo.JSON Demo.fileB)
       (remote Demo2.watchingB)
     = (Ok (mkResult "uploaded-1" "2020-06-01"), Demo.store)
  /\ fileEvents (snd (saveJsonFile Demo.drive Demo.cls Demo.JSON Demo.fileB
                        Demo2.watchingB))
     = [saveOf Demo.fileB; unloadOf Demo.fileB]
  /\ JsMap.get (IdStr "b")
       (cachedFiles (snd (saveJsonFile Demo.drive Demo.cls Demo.JSON Demo.fileB
                            Demo2.watchingB)))
     = None.
Proof.
  assert (H1 : truthy (getDiffData Demo.cls Demo.fileB) = true) by (vm_compute; reflexivity).
  assert (H2 : request Demo.drive (saveRequest Demo.cls Demo.JSON Demo.fileB)
                 (remote Demo2.watchingB)
               = (Ok (mkResult "uploaded-1" "2020-06-01"), Demo.store))
    by (vm_compute; reflexivity).
  split; [exact H1|]. split; [exact H2|].
  destruct (saveJsonFile_caches_the_clone Demo.drive Demo.cls Demo.JSON
              Demo.store [OpUnloadById (IdStr "b")] Demo.fileB _ _ H1 H2)
    as (_ & Hcase).
  change (watching (id (updateClone Demo.cls Demo.fileB))
            (demoRun [OpUnloadById (IdStr "b")])
          && notNullish (id (updateClone Demo.cls Demo.fileB)))
    with true in Hcase.
  destruct Hcase as (He & Hg & _).
  split; [exact He|exact Hg].
Defined.

Lemma createAndSaveNewJsonFile_outcome_witness :
  quiet (demoRun [])
  /\ exists created,
       fst (createAndSaveNewJsonFile Demo.drive Demo.cls Demo.JSON "Brute" JNull
              (demoRun []))
       = Next created
       /\ id created = IdStr "uploaded-1"
       /\ fileEvents (snd (createAndSaveNewJsonFile Demo.drive Demo.cls Demo.JSON
                             "Brute" JNull (demoRun [])))
          = [saveOf created].
Proof.
  assert (Hq : quiet (demoRun [])) by (split; constructor).
  split; [exact Hq|].
  pose proof (createAndSaveNewJsonFile_outcome Demo.drive Demo.cls Demo.JSON
                "Brute" JNull (demoRun [])) as H.
  change (getFolderId Demo.drive (demoRun []))
    with (Next "folder-1", snd (getFolderId Demo.drive (demoRun []))) in H.
  cbv iota in H.
  change (request Demo.drive
            (createRequest Demo.cls Demo.JSON
               (freshJsonFile Demo.cls "Brute" JNull) "folder-1")
            (remote (snd (getFolderId Demo.drive (demoRun [])))))
    with (Ok (mkResult "uploaded-1" "2020-06-01"),
          (Demo.store ++ [Demo.createdFolder])%list) in H.
  cbv iota in H.
  destruct H as (created & Hc & Hid & _ & _ & _ & reactions & He & _ & Hnone).
  exists created. split; [exact Hc|]. split; [exact Hid|].
  rewrite (Hnone Hq) in He. exact He.
Defined.

Lemma subscriber_sees_the_load_witness :
  getJsonFileFromDrive Demo.drive Demo.cls Demo.JSON "b" (demoRun [])
  = (Next Demo.fileB, Demo2.afterFetchB)
  /\ id Demo.fileB = IdStr "b"
  /\ watching (IdStr "b") (demoRun []) = false
  /\ listenDocumentById Demo.cls "b" (demoRun []) [loadOf Demo.fileB]
     = ([createErrorEvent Demo.cls "b"; loadOf Demo.fileB], None)
  /\ listenDocumentById Demo.cls "b"
       (snd (loadById Demo.drive Demo.cls Demo.JSON "b" (demoRun []))) []
     = ([loadOf Demo.fileB], None).
Proof.
  assert (H1 : getJsonFileFromDrive Demo.drive Demo.cls Demo.JSON "b" (demoRun [])
               = (Next Demo.fileB, Demo2.afterFetchB)) by (vm_compute; reflexivity).
  split; [exact H1|]. split; [vm_compute; reflexivity|]. split; [vm_compute; reflexivity|].
  pose proof (subscriber_sees_the_load Demo.drive Demo.cls Demo.JSON
                Demo.store [] "b" Demo.fileB Demo2.afterFetchB H1 eq_refl) as H.
  change (watching (IdStr "b") (demoRun [])) with false in H.
  exact (proj2 H).
Defined.

Lemma futureState_ends_at_null_file_witness :
  Forall (fun ev => exists f, file ev = Some f) [Demo.loadB; loadOf Demo2.fileC]
  /\ file sentinel = None
  /\ futureState "b" ([Demo.loadB; loadOf Demo2.fileC] ++ sentinel :: [Demo.unloadB])
     = ([Demo.loadB], Some (Raised "TypeError: Cannot read property 'id' of null")).
Proof.
  assert (H : Forall (fun ev => exists f, file ev = Some f)
                     [Demo.loadB; loadOf Demo2.fileC]).
  { repeat constructor; eexists; reflexivity. }
  split; [exact H|]. split; [vm_compute; reflexivity|].
  exact (futureState_ends_at_null_file "b" _ [Demo.unloadB] sentinel H eq_refl).
Defined.

Lemma unloadFile_removes_by_id_witness :
  scanError (demoRun [OpLoadById "b"]) = None
  /\ calm (demoRun [OpLoadById "b"])
  /\ notNullish (id Demo2.fileC) = true
  /\ JsMap.get (id Demo2.fileC) (cachedFiles (demoRun [OpLoadById "b"])) = None
  /\ fileEvents (snd (unloadFile (Some Demo2.fileC) (demoRun [OpLoadById "b"])))
     = (fileEvents (demoRun [OpLoadById "b"]) ++ [unloadOf Demo2.fileC])%list
  /\ cachedFiles (snd (unloadFile (Some Demo2.fileC) (demoRun [OpLoadById "b"])))
     = cachedFiles (demoRun [OpLoadById "b"]).
Proof.
  assert (H1 : scanError (demoRun [OpLoadById "b"]) = None) by (vm_compute; reflexivity).
  assert (H0 : calm (demoRun [OpLoadById "b"])) by (split; constructor).
  assert (H2 : notNullish (id Demo2.fileC) = true) by (vm_compute; reflexivity).
  assert (H3 : JsMap.get (id Demo2.fileC) (cachedFiles (demoRun [OpLoadById "b"]))
               = None) by (vm_compute; reflexivity).
  split; [exact H1|]. split; [exact H0|]. split; [exact H2|]. split; [exact H3|].
  destruct (unloadFile_removes_by_id (demoRun [OpLoadById "b"]) Demo2.fileC H1 H0)
    as (_ & _ & Hid).
  destruct (Hid H2) as (He & _ & _ & Hsame).
  split; [exact He|exact (Hsame H3)].
Defined.

Lemma character_page_follows_the_last_event_witness :
  decisive (mkCharacterEvent "unload" Demo2.hero) = true
  /\ (("unload" =? "unload") = true)
  /\ characterFile
       (deliverAll ([mkCharacterEvent "load" Demo2.hero]
                    ++ [mkCharacterEvent "unload" Demo2.hero])
                   (resolveDocId "b" newComponent))
     = None.
Proof.
  assert (H : decisive (mkCharacterEvent "unload" Demo2.hero) = true) by (vm_compute; reflexivity).
  split; [exact H|]. split; [vm_compute; reflexivity|].
  exact (proj1 (proj2 (character_page_follows_the_last_event
                         [mkCharacterEvent "load" Demo2.hero]
                         (mkCharacterEvent "unload" Demo2.hero)
                         (resolveDocId "b" newComponent) H) eq_refl)).
Defined.
